(** * HiRISE monocular depth estimation demo: [app.py]

    A shallow embedding of the bespoke logic of [app.py]: the weight-key
    transform of [load_model], the point-cloud construction loop and the mesh
    post-processing sequence of [generate_mesh], and the inversion and colour
    scale of [predict].

    Conventions.
    - Array cells are canonical rationals ([Qc]): the real number a float
      denotes, with exact arithmetic.  Rounding (the float32 narrowing on
      store) and non-finite values are outside the model.
    - Python exceptions are values of [exn]; a computation that may raise
      returns a [result].
    - Calls into Open3D, PyTorch and Matplotlib go through the interface
      records [open3d], [torch] and [matplotlib]. *)

From Stdlib Require Import ZArith QArith Qcanon Lia OrderedTypeEx.
From stdpp Require Import base numbers list strings sorting.

Local Open Scope nat_scope.

(** ** Exceptions and the [result] monad *)

Inductive exn : Type :=
| IndexError
| ValueError
| RuntimeError.

Inductive result (A : Type) : Type :=
| Ok (a : A)
| Raise (e : exn).
Arguments Ok {A} a.
Arguments Raise {A} e.

Definition bind {A B : Type} (m : result A) (f : A → result B) : result B :=
  match m with
  | Ok a => f a
  | Raise e => Raise e
  end.

Notation "'let*' x ':=' m 'in' k" := (bind m (fun x => k))
  (at level 10, x name, m at level 100, k at level 200).
Notation "'let*' ( x , y ) ':=' m 'in' k" := (bind m (fun '(x, y) => k))
  (at level 10, x name, y name, m at level 100, k at level 200).

(** [for x in xs: body] over a mutable state [S]. *)
Fixpoint for_in {S : Type} (xs : list nat) (body : nat → S → result S) (s : S)
  : result S :=
  match xs with
  | [] => Ok s
  | x :: xs' => let* s' := body x s in for_in xs' body s'
  end.

(** Python's [range(n)]. *)
Definition range (n : nat) : list nat := seq 0 n.

(** ** NumPy arrays *)

(** A 2-D array, row by row. *)
Abbreviation ndarray2 := (list (list Qc)).

(** The array has [r] rows of [c] cells each ([a.shape == (r, c)]). *)
Definition has_shape (a : ndarray2) (r c : nat) : bool :=
  (length a =? r) && forallb (fun row => length row =? c) a.

(** [a[i, j]] for non-negative [i], [j]; out of bounds raises [IndexError]. *)
Definition getitem2 (a : ndarray2) (i j : nat) : result Qc :=
  match a !! i with
  | Some row =>
      match row !! j with
      | Some v => Ok v
      | None => Raise IndexError
      end
  | None => Raise IndexError
  end.

(** A row of an [(n, 3)] array. *)
Record row3 : Type := Row3 { col0 : Qc; col1 : Qc; col2 : Qc }.

(** An [(n, 3)] array. *)
Abbreviation ndarray_n3 := (list row3).

(** [np.zeros(shape=(n, 3))]. *)
Definition np_zeros (n : nat) : ndarray_n3 := replicate n (Row3 0%Qc 0%Qc 0%Qc).

Definition set_col (c : nat) (v : Qc) (r : row3) : result row3 :=
  match c with
  | 0 => Ok (Row3 v (col1 r) (col2 r))
  | 1 => Ok (Row3 (col0 r) v (col2 r))
  | 2 => Ok (Row3 (col0 r) (col1 r) v)
  | _ => Raise IndexError
  end.

(** [a[k, c] = v]. *)
Definition setitem (a : ndarray_n3) (k c : nat) (v : Qc) : result ndarray_n3 :=
  match a !! k with
  | Some r => let* r' := set_col c v r in Ok (<[k := r']> a)
  | None => Raise IndexError
  end.

(** [a[k, :3] = v]: the scalar [v] is broadcast over the three columns. *)
Definition setitem_row (a : ndarray_n3) (k : nat) (v : Qc) : result ndarray_n3 :=
  match a !! k with
  | Some _ => Ok (<[k := Row3 v v v]> a)
  | None => Raise IndexError
  end.

(** ** [generate_mesh]: the point-cloud arrays *)

(** Module constants [W, H = 512, 512]. *)
Definition W : nat := 512.
Definition H : nat := 512.

(** [abs(j - 512)] on Python integers. *)
Definition point_x (j : nat) : Z := Z.abs (Z.of_nat j - 512).

(** The row index, stored as the y coordinate. *)
Definition point_y (i : nat) : Z := Z.of_nat i.

(** The body of the inner loop (lines 32-35).  The module constant [H] is
    the argument [h], so that the loop can also be run at small sizes. *)
Definition cell_body (h : nat) (dtm image : ndarray2) (i j : nat)
    (st : ndarray_n3 * ndarray_n3) : result (ndarray_n3 * ndarray_n3) :=
  let '(points, colors) := st in
  let* points := setitem points (i * h + j) 0 (Qc_of_Z (point_x j)) in
  let* points := setitem points (i * h + j) 1 (Qc_of_Z (point_y i)) in
  let* z := getitem2 dtm i j in
  let* points := setitem points (i * h + j) 2 z in
  let* c := getitem2 image i j in
  let* colors := setitem_row colors (i * h + j) c in
  Ok (points, colors).

(** Lines 28-35 with the module constants [W], [H] as arguments. *)
Definition build_arrays (w h : nat) (dtm image : ndarray2)
  : result (ndarray_n3 * ndarray_n3) :=
  let points := np_zeros (w * h) in
  let colors := np_zeros (w * h) in
  for_in (range h) (fun i =>
    for_in (range w) (fun j => cell_body h dtm image i j))
    (points, colors).

(** The row written for pixel [(i, j)] of depth [z]. *)
Definition point_row (i j : nat) (z : Qc) : row3 :=
  Row3 (Qc_of_Z (point_x j)) (Qc_of_Z (point_y i)) z.

(** Lines 28-35 of [generate_mesh]: the [points] and [colors] arrays. *)
Definition generate_mesh_arrays (dtm image : ndarray2)
  : result (ndarray_n3 * ndarray_n3) :=
  build_arrays W H dtm image.

(** Every read of the top-left [h × w] block succeeds. *)
Definition in_bounds (a : ndarray2) (h w : nat) : Prop :=
  ∀ i j, i < h → j < w → ∃ v, getitem2 a i j = Ok v.

(** From state [st0] to state [st], exactly the rows of the pixels in [P]
    were written, at index [i * h + j], with the point and colour of the
    pixel; every other row is as before. *)
Definition written (h : nat) (dtm image : ndarray2) (P : nat → nat → Prop)
    (st0 st : ndarray_n3 * ndarray_n3) : Prop :=
  length st.1 = length st0.1 ∧ length st.2 = length st0.2 ∧
  (∀ i j, P i j → ∃ z c,
      getitem2 dtm i j = Ok z ∧ getitem2 image i j = Ok c ∧
      st.1 !! (i * h + j) = Some (point_row i j z) ∧
      st.2 !! (i * h + j) = Some (Row3 c c c)) ∧
  (∀ k, (∀ i j, P i j → k ≠ i * h + j) →
      st.1 !! k = st0.1 !! k ∧ st.2 !! k = st0.2 !! k).

(** [np.full((r, c), v)]: the constant grid used in the examples. *)
Definition np_full (r c : nat) (v : Qc) : ndarray2 := replicate r (replicate c v).

(** ** The Open3D interface *)

(** The Euler angles the program passes: [0] and [np.pi]. *)
Inductive radians : Type :=
| Rad_0
| Rad_pi.

Definition point3 : Type := (Qc * Qc * Qc)%type.

(** The mesh methods called by [generate_mesh], on a mesh type [M].  A method
    that mutates the mesh in place returns the mutated mesh. *)
Record mesh_ops (M R : Type) : Type := MeshOps {
  get_rotation_matrix_from_xyz : radians * radians * radians → R;
  rotate : R → point3 → M → M;
  compute_vertex_normals : M → M;
  remove_degenerate_triangles : M → M;
  remove_duplicated_triangles : M → M;
  remove_duplicated_vertices : M → M;
  remove_non_manifold_edges : M → M
}.
Arguments get_rotation_matrix_from_xyz {M R} _ _.
Arguments rotate {M R} _ _ _ _.
Arguments compute_vertex_normals {M R} _ _.
Arguments remove_degenerate_triangles {M R} _ _.
Arguments remove_duplicated_triangles {M R} _ _.
Arguments remove_duplicated_vertices {M R} _ _.
Arguments remove_non_manifold_edges {M R} _ _.

(** The point-cloud side of the library and the mesh writer. *)
Record open3d : Type := Open3D {
  PointCloud : Type;
  TriangleMesh : Type;
  Rotation : Type;
  Densities : Type;
  (** [PointCloud()] with [points] and [colors] assigned. *)
  point_cloud : ndarray_n3 → ndarray_n3 → PointCloud;
  estimate_normals : PointCloud → PointCloud;
  orient_normals_to_align_with_direction : PointCloud → PointCloud;
  (** [create_from_point_cloud_poisson(pcd, depth, n_threads)]. *)
  create_from_point_cloud_poisson :
    PointCloud → nat → nat → TriangleMesh * Densities;
  triangle_mesh : mesh_ops TriangleMesh Rotation
}.

(** Lines 46-48: the fixed rotation and the normal recomputation. *)
Definition mesh_transformations {M R : Type} (o : mesh_ops M R) (mesh : M) : M :=
  let rotation := get_rotation_matrix_from_xyz o (Rad_pi, Rad_0, Rad_0) in
  let mesh := rotate o rotation (0, 0, 0)%Qc mesh in
  compute_vertex_normals o mesh.

(** Lines 50-53: the four clean-up passes. *)
Definition remove_artifacts {M R : Type} (o : mesh_ops M R) (mesh : M) : M :=
  let mesh := remove_degenerate_triangles o mesh in
  let mesh := remove_duplicated_triangles o mesh in
  let mesh := remove_duplicated_vertices o mesh in
  remove_non_manifold_edges o mesh.

(** Lines 37-44: from the two arrays to the reconstructed mesh. *)
Definition reconstruct (lib : open3d) (points colors : ndarray_n3)
  : TriangleMesh lib :=
  let pcd := point_cloud lib points colors in
  let pcd := estimate_normals lib pcd in
  let pcd := orient_normals_to_align_with_direction lib pcd in
  fst (create_from_point_cloud_poisson lib pcd 7 1).

(** The file written by [o3d.io.write_triangle_mesh]. *)
Record obj_file (M : Type) : Type := ObjFile {
  obj_filename : string;
  obj_mesh : M
}.
Arguments ObjFile {M} _ _.
Arguments obj_filename {M} _.
Arguments obj_mesh {M} _.

(** [generate_mesh(dtm, image, image_path)], with [stem] for
    [image_path.stem].  The result is the returned path together with the
    file that was written under it. *)
Definition generate_mesh (lib : open3d) (dtm image : ndarray2) (stem : string)
  : result (obj_file (TriangleMesh lib)) :=
  let* (points, colors) := generate_mesh_arrays dtm image in
  let mesh := reconstruct lib points colors in
  let mesh := mesh_transformations (triangle_mesh lib) mesh in
  let mesh := remove_artifacts (triangle_mesh lib) mesh in
  let out_path := (stem ++ ".obj")%string in
  Ok (ObjFile out_path mesh).

(** ** [load_model] *)

(** A Python [dict] with string keys, in insertion order. *)
Definition dict (V : Type) : Type := list (string * V).

(** [d[k] = v]: an existing key keeps its place, a new key goes last. *)
Fixpoint dict_setitem {V : Type} (k : string) (v : V) (d : dict V) : dict V :=
  match d with
  | [] => [(k, v)]
  | (k', v') :: d' =>
      if decide (k' = k) then (k, v) :: d' else (k', v') :: dict_setitem k v d'
  end.

(** [d.get(k)]. *)
Fixpoint dict_get {V : Type} (k : string) (d : dict V) : option V :=
  match d with
  | [] => None
  | (k', v) :: d' => if decide (k' = k) then Some v else dict_get k d'
  end.

(** [list(d.keys())]. *)
Definition dict_keys {V : Type} (d : dict V) : list string := d.*1.

(** The slice [s[n:]] for [n >= 0]. *)
Fixpoint str_from (n : nat) (s : string) : string :=
  match n, s with
  | 0, _ => s
  | S n', String _ s' => str_from n' s'
  | S _, EmptyString => EmptyString
  end.

(** The transform of one item. *)
Definition strip_item {V : Type} (kv : string * V) : string * V :=
  (str_from 6 kv.1, kv.2).

(** One step of the comprehension: [acc[k[6:]] = v]. *)
Definition strip_step {V : Type} (acc : dict V) (kv : string * V) : dict V :=
  dict_setitem (str_from 6 kv.1) kv.2 acc.

(** [{k[6:]: v for (k, v) in weights.items()}]. *)
Definition strip_keys {V : Type} (weights : dict V) : dict V :=
  foldl strip_step [] weights.

(** The PyTorch side: the network and its [load_state_dict], [eval] and
    forward pass; [to_tensor] is torchvision's. *)
Record torch : Type := Torch {
  Tensor : Type;
  Module : Type;
  GLPDepth : Qc → Module;
  load_state_dict : Module → dict Tensor → result Module;
  eval_mode : Module → Module;
  to_tensor : list (list Z) → Tensor;
  (** [model(x.unsqueeze(0)).squeeze().cpu().detach().numpy()]. *)
  forward_numpy : Module → Tensor → ndarray2
}.

(** [load_model(path)], with [state_dict] for
    [torch.load(path, ...)["state_dict"]]. *)
Definition load_model (t : torch) (state_dict : dict (Tensor t))
  : result (Module t) :=
  let model := GLPDepth t (Qc_of_Z 700) in
  let weights := strip_keys state_dict in
  let* model := load_state_dict t model weights in
  Ok (eval_mode t model).

(** ** [predict] *)

(** The larger and the smaller of two cells. *)
Definition Qc_max (x y : Qc) : Qc := if decide (x ≤ y)%Qc then y else x.
Definition Qc_min (x y : Qc) : Qc := if decide (x ≤ y)%Qc then x else y.

(** [a.max()]: raises [ValueError] on an array without cells. *)
Definition np_max (a : ndarray2) : result Qc :=
  match concat a with
  | [] => Raise ValueError
  | v :: vs => Ok (foldl Qc_max v vs)
  end.

(** [a.min()], used to state the value range. *)
Definition np_min (a : ndarray2) : result Qc :=
  match concat a with
  | [] => Raise ValueError
  | v :: vs => Ok (foldl Qc_min v vs)
  end.

(** [m - a] for a scalar [m]. *)
Definition rsub_scalar (m : Qc) (a : ndarray2) : ndarray2 :=
  map (map (fun v => (m - v)%Qc)) a.

(** Line 71: [pred_dtm = pred_dtm.max() - pred_dtm]. *)
Definition invert_dtm (pred_dtm : ndarray2) : result ndarray2 :=
  let* m := np_max pred_dtm in
  Ok (rsub_scalar m pred_dtm).

(** Line 73: [np.asarray(pil_image) / 255.0] on 8-bit pixels. *)
Definition scale_image (pil_image : list (list Z)) : ndarray2 :=
  map (map (fun p => (Qc_of_Z p / Qc_of_Z 255)%Qc)) pil_image.

(** The arguments of the [ax.imshow] call. *)
Record imshow_call : Type := Imshow {
  im_data : ndarray2;
  im_cmap : string;
  im_vmin : Qc;
  im_vmax : Qc
}.

(** Line 78. *)
Definition imshow_dtm (pred_dtm : ndarray2) : result imshow_call :=
  let* vmax := np_max pred_dtm in
  Ok (Imshow pred_dtm "jet" 0%Qc vmax).

(** Matplotlib: drawing the image with its colour bar into an RGB raster
    (lines 77, 79-83). *)
Record matplotlib : Type := Matplotlib {
  Raster : Type;
  draw_with_colorbar : imshow_call → Raster
}.

(** [predict(image_path)]: [pil_image] is the decoded 8-bit image, [stem] is
    [image_path.stem], [model] the module-level network. *)
Definition predict (t : torch) (lib : open3d) (plt : matplotlib)
    (model : Module t) (pil_image : list (list Z)) (stem : string)
  : result (Raster plt * obj_file (TriangleMesh lib)) :=
  let torch_image := to_tensor t pil_image in
  let pred_dtm := forward_numpy t model torch_image in
  let* pred_dtm := invert_dtm pred_dtm in
  let image_scaled := scale_image pil_image in
  let* obj := generate_mesh lib pred_dtm image_scaled stem in
  let* im := imshow_dtm pred_dtm in
  Ok (draw_with_colorbar plt im, obj).

(** ** The triangle mesh of the geometry library

    The implementations of the mesh methods belong to Open3D and are not part
    of [app.py].  The definitions of this section follow the description of
    the mesh and of the six post-processing steps in the specification. *)

Module SpecMesh.

(** Modelled from the spec: a vertex of the mesh (Open3D's vertex and
    per-vertex normal arrays): a position and its normal. *)
Record vertex : Type := Vertex { position : point3; normal : point3 }.

(** Modelled from the spec: a triangle (a row of Open3D's triangle index
    array) as three vertex indices. *)
Definition triangle : Type := (nat * nat * nat)%type.

(** Modelled from the spec: the mesh (Open3D's [TriangleMesh]): "vertex set,
    triangle index set, per-vertex normal set". *)
Record mesh : Type := Mesh { vertices : list vertex; triangles : list triangle }.

Definition vertex_count (m : mesh) : nat := length (vertices m).
Definition triangle_count (m : mesh) : nat := length (triangles m).

Definition matrix3 : Type := (point3 * point3 * point3)%type.

Definition add3 (p q : point3) : point3 :=
  let '(a, b, c) := p in let '(x, y, z) := q in (a + x, b + y, c + z)%Qc.

Definition sub3 (p q : point3) : point3 :=
  let '(a, b, c) := p in let '(x, y, z) := q in (a - x, b - y, c - z)%Qc.

Definition dot3 (p q : point3) : Qc :=
  let '(a, b, c) := p in let '(x, y, z) := q in (a * x + b * y + c * z)%Qc.

Definition cross3 (p q : point3) : point3 :=
  let '(a, b, c) := p in let '(x, y, z) := q in
  (b * z - c * y, c * x - a * z, a * y - b * x)%Qc.

Definition mat_vec (r : matrix3) (p : point3) : point3 :=
  let '(r0, r1, r2) := r in (dot3 r0 p, dot3 r1 p, dot3 r2 p).

Definition mat_cols (r : matrix3) : matrix3 :=
  let '((a, b, c), (d, e, f), (g, h, i)) := r in
  ((a, d, g), (b, e, h), (c, f, i)).

Definition mat_mul (r s : matrix3) : matrix3 :=
  let '(r0, r1, r2) := r in
  let '(c0, c1, c2) := mat_cols s in
  ((dot3 r0 c0, dot3 r0 c1, dot3 r0 c2),
   (dot3 r1 c0, dot3 r1 c1, dot3 r1 c2),
   (dot3 r2 c0, dot3 r2 c1, dot3 r2 c2)).

Definition cos_rad (a : radians) : Qc :=
  match a with Rad_0 => 1 | Rad_pi => -1 end%Qc.

Definition sin_rad (a : radians) : Qc := 0%Qc.

Definition rot_x (a : radians) : matrix3 :=
  ((1, 0, 0), (0, cos_rad a, - sin_rad a), (0, sin_rad a, cos_rad a))%Qc.
Definition rot_y (a : radians) : matrix3 :=
  ((cos_rad a, 0, sin_rad a), (0, 1, 0), (- sin_rad a, 0, cos_rad a))%Qc.
Definition rot_z (a : radians) : matrix3 :=
  ((cos_rad a, - sin_rad a, 0), (sin_rad a, cos_rad a, 0), (0, 0, 1))%Qc.

(** Modelled from the spec: Open3D's [get_rotation_matrix_from_xyz], the
    rotation with the given Euler angles about the x, y and z axes; for
    [(π, 0, 0)] the rotation by 180° about the x-axis. *)
Definition rotation_matrix_from_xyz (a : radians * radians * radians) : matrix3 :=
  let '(ax, ay, az) := a in mat_mul (rot_x ax) (mat_mul (rot_y ay) (rot_z az)).

(** Modelled from the spec: Open3D's [rotate]: step 1, the rotation of the
    mesh about the pivot [center]. *)
Definition rotate_mesh (r : matrix3) (center : point3) (m : mesh) : mesh :=
  Mesh (map (fun v => Vertex (add3 (mat_vec r (sub3 (position v) center)) center)
                             (mat_vec r (normal v)))
            (vertices m))
       (triangles m).

Definition tri_indices (t : triangle) : list nat :=
  let '(a, b, c) := t in [a; b; c].

(** The cross product of two sides: twice the area, along the face normal. *)
Definition tri_cross (vs : list vertex) (t : triangle) : option point3 :=
  let '(a, b, c) := t in
  p0 ← vs !! a; p1 ← vs !! b; p2 ← vs !! c;
  Some (cross3 (sub3 (position p1) (position p0))
               (sub3 (position p2) (position p0))).

Definition vertex_normal (vs : list vertex) (ts : list triangle) (i : nat)
  : point3 :=
  foldr add3 (0, 0, 0)%Qc
    (omap (fun t => if bool_decide (i ∈ tri_indices t) then tri_cross vs t
                    else None) ts).

(** Modelled from the spec: Open3D's [compute_vertex_normals]: step 2, every
    vertex normal is recomputed from the incident triangles (the sum of their
    face normals, left unnormalised: the unit length needs a square root). *)
Definition compute_normals (m : mesh) : mesh :=
  Mesh (imap (fun i v => Vertex (position v)
                                (vertex_normal (vertices m) (triangles m) i))
             (vertices m))
       (triangles m).

Definition zero_area (vs : list vertex) (t : triangle) : bool :=
  match tri_cross vs t with
  | Some n => bool_decide (n = (0, 0, 0)%Qc)
  | None => false
  end.

(** Modelled from the spec: Open3D's [remove_degenerate_triangles]: step 3,
    "zero or near-zero area"; in exact arithmetic, zero area. *)
Definition remove_degenerate (m : mesh) : mesh :=
  Mesh (vertices m)
       (List.filter (fun t => negb (zero_area (vertices m) t)) (triangles m)).

(** Keeps the first element of every class of [same]. *)
Fixpoint nub_by {A : Type} (same : A → A → bool) (l : list A) : list A :=
  match l with
  | [] => []
  | x :: l' => x :: List.filter (fun y => negb (same x y)) (nub_by same l')
  end.

Definition same_vertex_set (t u : triangle) : bool :=
  forallb (fun a => bool_decide (a ∈ tri_indices u)) (tri_indices t)
  && forallb (fun a => bool_decide (a ∈ tri_indices t)) (tri_indices u).

(** Modelled from the spec: Open3D's [remove_duplicated_triangles]: step 4,
    "same vertex set, any winding". *)
Definition remove_dup_triangles (m : mesh) : mesh :=
  Mesh (vertices m) (nub_by same_vertex_set (triangles m)).

Definition coincident (u v : vertex) : bool :=
  bool_decide (position u = position v).

(** The index of the kept vertex that takes the place of vertex [i]. *)
Definition merged_index (vs kept : list vertex) (i : nat) : nat :=
  match vs !! i with
  | Some v =>
      match list_find (fun u => position u = position v) kept with
      | Some (k, _) => k
      | None => i
      end
  | None => i
  end.

(** Modelled from the spec: Open3D's [remove_duplicated_vertices]: step 5,
    "coincident positions merged"; the triangles are re-indexed. *)
Definition remove_dup_vertices (m : mesh) : mesh :=
  let kept := nub_by coincident (vertices m) in
  let f := merged_index (vertices m) kept in
  Mesh kept (map (fun '(a, b, c) => (f a, f b, f c)) (triangles m)).

Definition tri_edges (t : triangle) : list (nat * nat) :=
  let '(a, b, c) := t in [(a, b); (b, c); (c, a)].

Definition same_edge (e f : nat * nat) : bool :=
  bool_decide (e = f) || bool_decide (e = (snd f, fst f)).

Definition has_edge (e : nat * nat) (t : triangle) : bool :=
  existsb (same_edge e) (tri_edges t).

(** The number of triangles of [ts] that share the edge [e]. *)
Definition sharing (e : nat * nat) (ts : list triangle) : nat :=
  length (List.filter (has_edge e) ts).

(** Adding [t] to [kept] leaves every edge of [t] on at most two triangles. *)
Definition fits (kept : list triangle) (t : triangle) : bool :=
  forallb (fun e => sharing e kept <? 2) (tri_edges t).

Fixpoint keep_manifold (kept ts : list triangle) : list triangle :=
  match ts with
  | [] => kept
  | t :: ts' =>
      if fits kept t then keep_manifold (kept ++ [t]) ts'
      else keep_manifold kept ts'
  end.

(** Modelled from the spec: Open3D's [remove_non_manifold_edges]: step 6,
    "edges shared by more than two triangles", resolved by deleting offending
    triangles; the policy here deletes, in index order, every triangle that
    would be the third on one of its edges. *)
Definition remove_non_manifold (m : mesh) : mesh :=
  Mesh (vertices m) (keep_manifold [] (triangles m)).

(** The modelled methods as an instance of the interface. *)
Definition ops : mesh_ops mesh matrix3 :=
  MeshOps mesh matrix3 rotation_matrix_from_xyz rotate_mesh compute_normals
    remove_degenerate remove_dup_triangles remove_dup_vertices
    remove_non_manifold.

(** Two triangles on the same edge whose third vertices, 0 and 3, are at the
    same position. *)
Definition twin_triangles : mesh :=
  Mesh [Vertex (0, 0, 0)%Qc (0, 0, 0)%Qc; Vertex (1, 0, 0)%Qc (0, 0, 0)%Qc;
        Vertex (0, 1, 0)%Qc (0, 0, 0)%Qc; Vertex (0, 0, 0)%Qc (0, 0, 0)%Qc]
       [(0, 1, 2); (3, 1, 2)].

(** One triangle listed three times, on vertices at distinct positions. *)
Definition repeated_triangle : mesh :=
  Mesh [Vertex (0, 0, 0)%Qc (0, 0, 0)%Qc; Vertex (1, 0, 0)%Qc (0, 0, 0)%Qc;
        Vertex (0, 1, 0)%Qc (0, 0, 0)%Qc]
       [(0, 1, 2); (2, 1, 0); (0, 1, 2)].

(** No element is [same] as a later one. *)
Fixpoint nubbed {A : Type} (same : A → A → bool) (l : list A) : Prop :=
  match l with
  | [] => True
  | x :: l' => Forall (fun y => same x y = false) l' ∧ nubbed same l'
  end.

(** Every triangle of the list fits after the triangles before it. *)
Definition manifold_order (l : list triangle) : Prop :=
  ∀ pre t post, l = pre ++ t :: post → fits pre t = true.

(** Vertices at pairwise distinct positions. *)
Definition distinct_positions (vs : list vertex) : Prop :=
  NoDup (position <$> vs).

(** The triangles left by the three passes that only delete triangles. *)
Definition cleaned_triangles (vs : list vertex) (ts : list triangle)
  : list triangle :=
  keep_manifold []
    (nub_by same_vertex_set
       (List.filter (fun t => negb (zero_area vs t)) ts)).

(** The counts do not grow from [m] to [m']. *)
Definition counts_le (m' m : mesh) : Prop :=
  vertex_count m' ≤ vertex_count m ∧ triangle_count m' ≤ triangle_count m.

End SpecMesh.

(** ** The rest of [predict] and of the module *)


(** The decoded 8-bit image has [r] rows of [c] pixels. *)
Definition image_shape (pil_image : list (list Z)) (r c : nat) : bool :=
  (length pil_image =? r) && forallb (fun row => length row =? c) pil_image.

(** Every pixel is an 8-bit value (mode ["L"]). *)
Definition pixels_8bit (pil_image : list (list Z)) : bool :=
  forallb (forallb (fun p => (0 <=? p)%Z && (p <=? 255)%Z)) pil_image.

(** Line 83: the tuple [fig.canvas.get_width_height()[::-1] + (3,)]. *)
Definition raster_shape (width_height : nat * nat) : nat * nat * nat :=
  (width_height.2, width_height.1, 3).

(** [a.reshape((d0, d1, d2))] of a 1-D array, in C order: [d0] rows of [d1]
    pixels of [d2] cells; [ValueError] when the sizes differ. *)
Definition np_reshape3 {A : Type} (a : list A) (shape : nat * nat * nat)
  : result (list (list (list A))) :=
  let '(d0, d1, d2) := shape in
  if decide (length a = d0 * d1 * d2)
  then Ok (reshape (replicate d0 d1) (reshape (replicate (d0 * d1) d2) a))
  else Raise ValueError.

(** Lines 82-83: [rgb] is [fig.canvas.tostring_rgb()] read by
    [np.frombuffer(..., dtype=np.uint8)], one cell per byte, and
    [width_height] is [fig.canvas.get_width_height()]. *)
Definition canvas_array (rgb : list Byte.byte) (width_height : nat * nat)
  : result (list (list (list Byte.byte))) :=
  np_reshape3 rgb (raster_shape width_height).

(** [data[y, x, c]]. *)
Definition getitem3 {A : Type} (data : list (list (list A))) (y x c : nat)
  : option A :=
  row ← data !! y; pixel ← row !! x; pixel !! c.

(** The order of [str] values: character by character, a proper prefix
    first. *)
Definition str_le (a b : string) : Prop := String.leb a b = true.

#[global] Instance str_le_dec : RelDecision str_le :=
  fun a b => decide (String.leb a b = true).

(** Line 94: [[[f"examples/{name}", 3] for name in sorted(listing)]], with
    [listing] for [os.listdir("examples")]. *)
Definition examples_of (listing : list string) : list (string * Z) :=
  (fun name => (("examples/" ++ name)%string, 3%Z)) <$> merge_sort str_le listing.

(** ** Test doubles of the external libraries, for the examples *)

(** A network that answers [out] whatever the image, and loads any
    weights. *)
Definition fake_torch (out : ndarray2) : torch :=
  Torch (list (list Z)) unit (fun _ => tt) (fun m _ => Ok m) (fun m => m)
        (fun img => img) (fun _ _ => out).

(** A geometry library whose reconstruction answers the empty mesh and whose
    mesh methods are those of [SpecMesh]. *)
Definition fake_open3d : open3d :=
  Open3D (ndarray_n3 * ndarray_n3) SpecMesh.mesh SpecMesh.matrix3 unit
         (fun points colors => (points, colors)) (fun pcd => pcd)
         (fun pcd => pcd) (fun _ _ _ => (SpecMesh.Mesh [] [], tt))
         SpecMesh.ops.

(** A network that loads exactly the weights named [names]. *)
Definition strict_torch (names : list string) : torch :=
  Torch nat unit (fun _ => tt)
        (fun m d => if decide (dict_keys d = names) then Ok m
                    else Raise RuntimeError)
        (fun m => m) (fun _ => 0) (fun _ _ => []).

(** The calls a mesh has received, for a library that only records them. *)
Inductive mesh_call : Type :=
| CallRotate (angles : radians * radians * radians) (center : point3)
| CallComputeVertexNormals
| CallRemoveDegenerateTriangles
| CallRemoveDuplicatedTriangles
| CallRemoveDuplicatedVertices
| CallRemoveNonManifoldEdges.

Definition recording_ops : mesh_ops (list mesh_call) (radians * radians * radians) :=
  MeshOps (list mesh_call) (radians * radians * radians)
    (fun angles => angles)
    (fun angles center log => log ++ [CallRotate angles center])
    (fun log => log ++ [CallComputeVertexNormals])
    (fun log => log ++ [CallRemoveDegenerateTriangles])
    (fun log => log ++ [CallRemoveDuplicatedTriangles])
    (fun log => log ++ [CallRemoveDuplicatedVertices])
    (fun log => log ++ [CallRemoveNonManifoldEdges]).

(** A renderer that answers the call it was given. *)
Definition fake_matplotlib : matplotlib :=
  Matplotlib imshow_call (fun im => im).

(** * Properties *)

(** ** The definitions on small inputs *)

Example build_arrays_2x2 :
  build_arrays 2 2 [[Qc_of_Z 7; Qc_of_Z 8]; [Qc_of_Z 9; Qc_of_Z 6]]
                   [[Qc_of_Z 0; Qc_of_Z 1]; [Qc_of_Z 1; Qc_of_Z 0]] =
  Ok ([Row3 (Qc_of_Z 512) (Qc_of_Z 0) (Qc_of_Z 7);
       Row3 (Qc_of_Z 511) (Qc_of_Z 0) (Qc_of_Z 8);
       Row3 (Qc_of_Z 512) (Qc_of_Z 1) (Qc_of_Z 9);
       Row3 (Qc_of_Z 511) (Qc_of_Z 1) (Qc_of_Z 6)],
      [Row3 (Qc_of_Z 0) (Qc_of_Z 0) (Qc_of_Z 0);
       Row3 (Qc_of_Z 1) (Qc_of_Z 1) (Qc_of_Z 1);
       Row3 (Qc_of_Z 1) (Qc_of_Z 1) (Qc_of_Z 1);
       Row3 (Qc_of_Z 0) (Qc_of_Z 0) (Qc_of_Z 0)]).
Proof. vm_compute. reflexivity. Qed.

Example build_arrays_crops :
  build_arrays 1 1 [[Qc_of_Z 7; Qc_of_Z 8]; [Qc_of_Z 9; Qc_of_Z 6]]
                   [[Qc_of_Z 0; Qc_of_Z 1]; [Qc_of_Z 1; Qc_of_Z 0]] =
  Ok ([Row3 (Qc_of_Z 512) (Qc_of_Z 0) (Qc_of_Z 7)],
      [Row3 (Qc_of_Z 0) (Qc_of_Z 0) (Qc_of_Z 0)]).
Proof. vm_compute. reflexivity. Qed.

Example build_arrays_short_row :
  build_arrays 2 2 [[Qc_of_Z 7; Qc_of_Z 8]; [Qc_of_Z 9]]
                   [[Qc_of_Z 0; Qc_of_Z 1]; [Qc_of_Z 1; Qc_of_Z 0]] =
  Raise IndexError.
Proof. vm_compute. reflexivity. Qed.

Example strip_keys_overwrites :
  strip_keys [("model.a", 1); ("model.b", 2); ("xxxxxxa", 3); ("ab", 4)]%string
  = [("a", 3); ("b", 2); (EmptyString, 4)]%string.
Proof. vm_compute. reflexivity. Qed.

Example np_max_empty : np_max [[]; []] = Raise ValueError.
Proof. reflexivity. Qed.

Example keep_manifold_third_triangle :
  SpecMesh.keep_manifold [] [(0, 1, 2); (0, 1, 3); (1, 0, 4); (4, 5, 6)] =
  [(0, 1, 2); (0, 1, 3); (4, 5, 6)].
Proof. vm_compute. reflexivity. Qed.

Example remove_dup_triangles_winding :
  SpecMesh.nub_by SpecMesh.same_vertex_set [(0, 1, 2); (2, 0, 1); (2, 1, 0); (0, 1, 3)] =
  [(0, 1, 2); (0, 1, 3)].
Proof. vm_compute. reflexivity. Qed.

(** ** The [result] monad and loops *)

Lemma bind_Ok_inv {A B : Type} (m : result A) (f : A → result B) (b : B) :
  bind m f = Ok b → ∃ a, m = Ok a ∧ f a = Ok b.
Proof. destruct m as [a|e]; simpl; [eauto | discriminate]. Qed.

Lemma bind_Raise_inv {A B : Type} (m : result A) (f : A → result B) (e : exn) :
  bind m f = Raise e → m = Raise e ∨ ∃ a, m = Ok a ∧ f a = Raise e.
Proof. destruct m as [a|e']; simpl; [eauto | intros [= ->]; auto]. Qed.

(** A loop whose body keeps an invariant, indexed by the elements already
    visited, runs to the end and establishes it for the whole list. *)
Lemma for_in_invariant {S : Type} (I : list nat → S → Prop)
    (body : nat → S → result S) (xs : list nat) :
  (∀ visited x s, I visited s → x ∈ xs →
     ∃ s', body x s = Ok s' ∧ I (visited ++ [x]) s') →
  ∀ visited s, I visited s →
    ∃ s', for_in xs body s = Ok s' ∧ I (visited ++ xs) s'.
Proof.
  induction xs as [|x xs IH]; intros Hstep visited s HI.
  - exists s. rewrite app_nil_r. done.
  - destruct (Hstep visited x s HI) as (s1 & Hb & HI1); [left|].
    destruct (IH (fun v y t Hv Hy => Hstep v y t Hv (list_elem_of_further _ _ _ Hy))
                 (visited ++ [x]) s1 HI1) as (s' & Hrun & HI').
    exists s'. simpl. rewrite Hb. simpl. rewrite <- app_assoc in HI'. done.
Qed.

(** A loop that ends normally ran its body normally on every element. *)
Lemma for_in_Ok_body {S : Type} (body : nat → S → result S) (xs : list nat)
    (s s' : S) (x : nat) :
  for_in xs body s = Ok s' → x ∈ xs → ∃ s1 s2, body x s1 = Ok s2.
Proof.
  revert s. induction xs as [|y xs IH]; intros s Hrun Hx.
  - by apply elem_of_nil in Hx.
  - simpl in Hrun. apply bind_Ok_inv in Hrun as (s1 & Hb & Hrest).
    apply elem_of_cons in Hx as [->|Hx]; eauto.
Qed.

(** A loop raises only what its body raises. *)
Lemma for_in_Raise_body {S : Type} (body : nat → S → result S) (xs : list nat)
    (s : S) (e : exn) :
  for_in xs body s = Raise e → ∃ x s1, x ∈ xs ∧ body x s1 = Raise e.
Proof.
  revert s. induction xs as [|y xs IH]; intros s Hrun; [discriminate|].
  simpl in Hrun. apply bind_Raise_inv in Hrun as [Hb|(s1 & Hb & Hrest)].
  - exists y, s. split; [left | done].
  - destruct (IH _ Hrest) as (x & s2 & Hx & Hr). exists x, s2.
    split; [by right | done].
Qed.

Lemma elem_of_range (n x : nat) : x ∈ range n ↔ x < n.
Proof. unfold range. rewrite elem_of_seq. lia. Qed.

(** ** Array reads and writes *)

Lemma has_shape_getitem2 (a : ndarray2) (r c i j : nat) :
  has_shape a r c = true → i < r → j < c → ∃ v, getitem2 a i j = Ok v.
Proof.
  unfold has_shape, getitem2. intros Hs Hi Hj.
  apply andb_prop in Hs as [Hr Hc]. apply Nat.eqb_eq in Hr.
  destruct (lookup_lt_is_Some_2 a i) as [row Hrow]; [lia|].
  rewrite Hrow. rewrite forallb_forall in Hc.
  assert (length row = c) as Hlen.
  { apply Nat.eqb_eq, Hc, list_elem_of_In, list_elem_of_lookup. eauto. }
  destruct (lookup_lt_is_Some_2 row j) as [v Hv]; [lia|].
  rewrite Hv. eauto.
Qed.

Lemma has_shape_getitem2_rows (a : ndarray2) (r c j : nat) :
  has_shape a r c = true → getitem2 a r j = Raise IndexError.
Proof.
  unfold has_shape, getitem2. intros Hs.
  apply andb_prop in Hs as [Hr _]. apply Nat.eqb_eq in Hr.
  rewrite (lookup_ge_None_2 a r); [done | lia].
Qed.

Lemma has_shape_getitem2_cols (a : ndarray2) (r c i : nat) :
  has_shape a r c = true → getitem2 a i c = Raise IndexError.
Proof.
  unfold has_shape, getitem2. intros Hs.
  apply andb_prop in Hs as [_ Hc]. rewrite forallb_forall in Hc.
  destruct (a !! i) as [row|] eqn:Hrow; [|done].
  assert (length row = c) as Hlen.
  { apply Nat.eqb_eq, Hc, list_elem_of_In, list_elem_of_lookup. eauto. }
  rewrite (lookup_ge_None_2 row c); [done | lia].
Qed.

Lemma getitem2_Raise (a : ndarray2) (i j : nat) (e : exn) :
  getitem2 a i j = Raise e → e = IndexError.
Proof.
  unfold getitem2. destruct (a !! i) as [row|]; [|congruence].
  destruct (row !! j); congruence.
Qed.

Lemma setitem_Raise (a : ndarray_n3) (k c : nat) (v : Qc) (e : exn) :
  setitem a k c v = Raise e → e = IndexError.
Proof.
  unfold setitem. destruct (a !! k) as [r|]; [|congruence].
  destruct c as [|[|[|c]]]; simpl; congruence.
Qed.

Lemma setitem_row_Raise (a : ndarray_n3) (k : nat) (v : Qc) (e : exn) :
  setitem_row a k v = Raise e → e = IndexError.
Proof. unfold setitem_row. destruct (a !! k); congruence. Qed.

(** ** The construction loop *)

Lemma written_refl h dtm image st : written h dtm image (fun _ _ => False) st st.
Proof. repeat split; intros; tauto. Qed.

Lemma written_ext h dtm image (P Q : nat → nat → Prop) st0 st :
  (∀ i j, P i j ↔ Q i j) → written h dtm image P st0 st →
  written h dtm image Q st0 st.
Proof.
  intros HPQ (Hl1 & Hl2 & Hw & Hu). repeat split; try done.
  - intros i j Hq. apply Hw, HPQ, Hq.
  - apply Hu. intros i j Hp. apply H0, HPQ, Hp.
  - apply Hu. intros i j Hp. apply H0, HPQ, Hp.
Qed.

(** Two runs in a row write the union; a row of the first run survives when
    the second run does not touch its index. *)
Lemma written_trans h dtm image (P Q : nat → nat → Prop) st0 st1 st2 :
  written h dtm image P st0 st1 → written h dtm image Q st1 st2 →
  (∀ i j, P i j → Q i j ∨ ∀ i' j', Q i' j' → i * h + j ≠ i' * h + j') →
  written h dtm image (fun i j => P i j ∨ Q i j) st0 st2.
Proof.
  intros (Hl1 & Hl2 & Hw & Hu) (Hl1' & Hl2' & Hw' & Hu') Hsep.
  split; [congruence|]. split; [congruence|]. split.
  - intros i j [Hp|Hq]; [|by apply Hw'].
    destruct (Hsep i j Hp) as [Hq|Hne]; [by apply Hw'|].
    destruct (Hw i j Hp) as (z & c & Hz & Hc & Hp1 & Hp2).
    destruct (Hu' (i * h + j) Hne) as [E1 E2].
    exists z, c. rewrite E1, E2. done.
  - intros k Hk.
    destruct (Hu' k) as [E1 E2]; [intros i j Hq; apply Hk; by right|].
    destruct (Hu k) as [E3 E4]; [intros i j Hp; apply Hk; by left|].
    split; congruence.
Qed.

(** One run of the loop body writes one row of each array. *)
Lemma cell_body_written h dtm image i j points colors z c :
  i * h + j < length points → i * h + j < length colors →
  getitem2 dtm i j = Ok z → getitem2 image i j = Ok c →
  ∃ st, cell_body h dtm image i j (points, colors) = Ok st ∧
        written h dtm image (fun i' j' => i' = i ∧ j' = j) (points, colors) st.
Proof.
  intros Hp Hc Hz Hcol.
  destruct (lookup_lt_is_Some_2 points _ Hp) as [r Hr].
  destruct (lookup_lt_is_Some_2 colors _ Hc) as [r' Hr'].
  exists (<[i * h + j := point_row i j z]> points,
          <[i * h + j := Row3 c c c]> colors).
  split.
  - unfold cell_body, setitem, setitem_row. rewrite Hr. simpl.
    rewrite list_lookup_insert_eq by done. simpl. rewrite Hz. simpl.
    rewrite list_lookup_insert_eq by (by rewrite length_insert). simpl.
    rewrite Hcol. simpl. rewrite Hr'. rewrite !list_insert_insert_eq. done.
  - unfold written. simpl. rewrite !length_insert.
    split; [done|]. split; [done|]. split.
    + intros ? ? [-> ->]. exists z, c.
      rewrite !list_lookup_insert_eq by done. done.
    + intros k Hk. specialize (Hk i j (conj eq_refl eq_refl)).
      rewrite !list_lookup_insert_ne by done. done.
Qed.

Lemma cell_body_Ok_reads h dtm image i j st st' :
  cell_body h dtm image i j st = Ok st' →
  ∃ z c, getitem2 dtm i j = Ok z ∧ getitem2 image i j = Ok c.
Proof.
  destruct st as [points colors]. unfold cell_body. intros Hb.
  apply bind_Ok_inv in Hb as (p1 & _ & Hb).
  apply bind_Ok_inv in Hb as (p2 & _ & Hb).
  apply bind_Ok_inv in Hb as (z & Hz & Hb).
  apply bind_Ok_inv in Hb as (p3 & _ & Hb).
  apply bind_Ok_inv in Hb as (c & Hc & Hb). eauto.
Qed.

Lemma cell_body_Raise h dtm image i j st e :
  cell_body h dtm image i j st = Raise e → e = IndexError.
Proof.
  destruct st as [points colors]. unfold cell_body. intros Hb.
  repeat match type of Hb with
         | bind _ _ = Raise _ =>
             apply bind_Raise_inv in Hb as [Hb|(? & _ & Hb)]
         end;
    eauto using getitem2_Raise, setitem_Raise, setitem_row_Raise.
  discriminate.
Qed.

(** The inner loop writes row [i] of the grid. *)
Lemma inner_loop_written n dtm image i st0 :
  in_bounds dtm n n → in_bounds image n n → i < n →
  length st0.1 = n * n → length st0.2 = n * n →
  ∃ st, for_in (range n) (fun j => cell_body n dtm image i j) st0 = Ok st ∧
        written n dtm image (fun i' j => i' = i ∧ j < n) st0 st.
Proof.
  intros Hd Him Hi Hl1 Hl2.
  destruct (for_in_invariant
              (fun visited st =>
                 written n dtm image (fun i' j => i' = i ∧ j ∈ visited) st0 st)
              (fun j => cell_body n dtm image i j) (range n)) with
    (visited := @nil nat) (s := st0) as (st & Hrun & Hw).
  - intros visited j [points colors] Hw Hj. apply elem_of_range in Hj.
    destruct (Hd i j Hi Hj) as [z Hz]. destruct (Him i j Hi Hj) as [c Hc].
    pose proof Hw as (Hw1 & Hw2 & _). simpl in Hw1, Hw2.
    destruct (cell_body_written n dtm image i j points colors z c)
      as (st & Hb & Hcell); try done; try nia.
    exists st. split; [done|].
    eapply written_ext; [|eapply written_trans; [exact Hw|exact Hcell|]].
    + intros i' j'. simpl. rewrite elem_of_app, list_elem_of_singleton. tauto.
    + intros i' j' [-> Hv]. simpl.
      destruct (decide (j' = j)) as [->|Hne]; [by left|].
      right. intros ? ? [-> ->]. lia.
  - eapply written_ext; [|apply written_refl]. intros i' j.
    rewrite elem_of_nil. tauto.
  - exists st. split; [done|]. eapply written_ext; [|exact Hw].
    intros i' j. simpl. rewrite elem_of_range. tauto.
Qed.

(** The two loops write every pixel of the [n × n] grid. *)
Lemma build_arrays_written n dtm image :
  in_bounds dtm n n → in_bounds image n n →
  ∃ st, build_arrays n n dtm image = Ok st ∧
        written n dtm image (fun i j => i < n ∧ j < n)
                (np_zeros (n * n), np_zeros (n * n)) st.
Proof.
  intros Hd Him. unfold build_arrays.
  set (st0 := (np_zeros (n * n), np_zeros (n * n))).
  destruct (for_in_invariant
              (fun visited st =>
                 written n dtm image (fun i j => i ∈ visited ∧ j < n) st0 st)
              (fun i => for_in (range n) (fun j => cell_body n dtm image i j))
              (range n)) with
    (visited := @nil nat) (s := st0) as (st & Hrun & Hw).
  - intros visited i st Hw Hi. apply elem_of_range in Hi.
    destruct (inner_loop_written n dtm image i st) as (st' & Hrun & Hrow);
      try done.
    { destruct Hw as (-> & _). unfold st0, np_zeros. simpl.
      apply length_replicate. }
    { destruct Hw as (_ & -> & _). unfold st0, np_zeros. simpl.
      apply length_replicate. }
    exists st'. split; [done|].
    eapply written_ext; [|eapply written_trans; [exact Hw|exact Hrow|]].
    + intros i' j. simpl. rewrite elem_of_app, list_elem_of_singleton. tauto.
    + intros i' j [Hv Hj]. simpl.
      destruct (decide (i' = i)) as [->|Hne]; [by left|].
      right. intros ? j' [-> Hj']. nia.
  - eapply written_ext; [|apply written_refl]. intros i j.
    rewrite elem_of_nil. tauto.
  - exists st. split; [done|]. eapply written_ext; [|exact Hw].
    intros i j. simpl. rewrite elem_of_range. tauto.
Qed.

Lemma build_arrays_Ok_reads w h dtm image st i j :
  build_arrays w h dtm image = Ok st → i < h → j < w →
  ∃ z c, getitem2 dtm i j = Ok z ∧ getitem2 image i j = Ok c.
Proof.
  unfold build_arrays. intros Hrun Hi Hj.
  eapply for_in_Ok_body with (x := i) in Hrun as (s1 & s2 & Hrow);
    [|by apply elem_of_range].
  eapply for_in_Ok_body with (x := j) in Hrow as (s3 & s4 & Hcell);
    [|by apply elem_of_range].
  eapply cell_body_Ok_reads, Hcell.
Qed.

Lemma build_arrays_Raise w h dtm image e :
  build_arrays w h dtm image = Raise e → e = IndexError.
Proof.
  unfold build_arrays. intros Hrun.
  apply for_in_Raise_body in Hrun as (i & s1 & _ & Hrow).
  apply for_in_Raise_body in Hrow as (j & s2 & _ & Hcell).
  eapply cell_body_Raise, Hcell.
Qed.

Lemma has_shape_in_bounds (a : ndarray2) (r c h w : nat) :
  has_shape a r c = true → h ≤ r → w ≤ c → in_bounds a h w.
Proof.
  intros Hs Hh Hw i j Hi Hj. eapply has_shape_getitem2; [done|lia|lia].
Qed.

(** A grid with a missing row or column among the first [h × w] has a
    failing read there. *)
Lemma has_shape_short (a : ndarray2) (r c h w : nat) :
  has_shape a r c = true → 0 < h → 0 < w → r < h ∨ c < w →
  ∃ i j, i < h ∧ j < w ∧ getitem2 a i j = Raise IndexError.
Proof.
  intros Hs Hh Hw [Hr|Hc].
  - exists r, 0. eauto using has_shape_getitem2_rows.
  - exists 0, c. eauto using has_shape_getitem2_cols.
Qed.

(** The arrays of a run on grids that cover the [n × n] block. *)
Lemma build_arrays_block n dtm image :
  in_bounds dtm n n → in_bounds image n n →
  ∃ points colors,
    build_arrays n n dtm image = Ok (points, colors) ∧
    length points = n * n ∧ length colors = n * n ∧
    ∀ i j, i < n → j < n →
      ∃ z c, getitem2 dtm i j = Ok z ∧ getitem2 image i j = Ok c ∧
             points !! (i * n + j) = Some (point_row i j z) ∧
             colors !! (i * n + j) = Some (Row3 c c c).
Proof.
  intros Hd Him.
  destruct (build_arrays_written n dtm image Hd Him)
    as ([points colors] & Hrun & Hl1 & Hl2 & Hw & _).
  exists points, colors. split; [done|].
  unfold np_zeros in Hl1, Hl2. cbn [fst snd] in Hl1, Hl2.
  rewrite length_replicate in Hl1, Hl2.
  split; [done|]. split; [done|].
  intros i j Hi Hj. apply (Hw i j). done.
Qed.

Lemma generate_mesh_arrays_block dtm image :
  in_bounds dtm 512 512 → in_bounds image 512 512 →
  ∃ points colors,
    generate_mesh_arrays dtm image = Ok (points, colors) ∧
    length points = W * H ∧ length colors = W * H ∧
    ∀ i j, i < 512 → j < 512 →
      ∃ z c, getitem2 dtm i j = Ok z ∧ getitem2 image i j = Ok c ∧
             points !! (i * H + j) = Some (point_row i j z) ∧
             colors !! (i * H + j) = Some (Row3 c c c).
Proof. exact (build_arrays_block 512 dtm image). Qed.

(** ** The point cloud of [generate_mesh] *)

(** C1: for 512 × 512 grids [dtm] and [image], the construction loop of
    [generate_mesh] ends normally with [points] and [colors] arrays of
    exactly H × W = 262144 rows each; for every row [i] and column [j] below
    512 the row at index [i * H + j] of [points] is
    [(|j - 512|, i, dtm[i, j])] and the row at the same index of [colors] is
    [image[i, j]] in all three channels; these two arrays are the ones the
    point cloud is made of. *)
Theorem generate_mesh_point_cloud (dtm image : ndarray2) :
  has_shape dtm 512 512 = true → has_shape image 512 512 = true →
  ∃ points colors,
    generate_mesh_arrays dtm image = Ok (points, colors) ∧
    length points = H * W ∧ length colors = H * W ∧
    Z.of_nat (H * W) = 262144%Z ∧
    (∀ i j, i < 512 → j < 512 →
       ∃ z c, getitem2 dtm i j = Ok z ∧ getitem2 image i j = Ok c ∧
         points !! (i * H + j) =
           Some {| col0 := Qc_of_Z (Z.abs (Z.of_nat j - 512));
                   col1 := Qc_of_Z (Z.of_nat i);
                   col2 := z |} ∧
         colors !! (i * H + j) = Some {| col0 := c; col1 := c; col2 := c |}) ∧
    (∀ lib stem,
       generate_mesh lib dtm image stem =
         Ok (ObjFile (stem ++ ".obj")%string
               (remove_artifacts (triangle_mesh lib)
                  (mesh_transformations (triangle_mesh lib)
                     (reconstruct lib points colors))))).
Proof.
  intros Hd Him.
  destruct (generate_mesh_arrays_block dtm image)
    as (points & colors & Hrun & Hl1 & Hl2 & Hcells).
  - eapply has_shape_in_bounds; [exact Hd|lia|lia].
  - eapply has_shape_in_bounds; [exact Him|lia|lia].
  - exists points, colors. split; [done|].
    split; [by rewrite Nat.mul_comm|]. split; [by rewrite Nat.mul_comm|].
    split; [unfold H, W; lia|]. split; [exact Hcells|].
    intros lib stem. unfold generate_mesh. rewrite Hrun. done.
Qed.

Lemma generate_mesh_point_cloud_witness :
  ∃ points colors,
    generate_mesh_arrays (np_full 512 512 0%Qc) (np_full 512 512 (Qc_of_Z 1))
      = Ok (points, colors) ∧
    length points = H * W ∧ length colors = H * W ∧
    Z.of_nat (H * W) = 262144%Z ∧
    (∀ i j, i < 512 → j < 512 →
       ∃ z c, getitem2 (np_full 512 512 0%Qc) i j = Ok z ∧
         getitem2 (np_full 512 512 (Qc_of_Z 1)) i j = Ok c ∧
         points !! (i * H + j) =
           Some {| col0 := Qc_of_Z (Z.abs (Z.of_nat j - 512));
                   col1 := Qc_of_Z (Z.of_nat i);
                   col2 := z |} ∧
         colors !! (i * H + j) = Some {| col0 := c; col1 := c; col2 := c |}) ∧
    (∀ lib stem,
       generate_mesh lib (np_full 512 512 0%Qc) (np_full 512 512 (Qc_of_Z 1)) stem =
         Ok (ObjFile (stem ++ ".obj")%string
               (remove_artifacts (triangle_mesh lib)
                  (mesh_transformations (triangle_mesh lib)
                     (reconstruct lib points colors))))).
Proof.
  apply (generate_mesh_point_cloud (np_full 512 512 0%Qc)
           (np_full 512 512 (Qc_of_Z 1))); vm_compute; reflexivity.
Defined.

(** C2, on the code: a pair of grids whose shape is 513 × 513, not
    512 × 512, raises nothing: the construction ends normally. *)
Lemma larger_grid_not_rejected :
  has_shape (np_full 513 513 0%Qc) 512 512 = false ∧
  ∃ points colors,
    generate_mesh_arrays (np_full 513 513 0%Qc) (np_full 513 513 0%Qc)
      = Ok (points, colors).
Proof.
  split; [vm_compute; reflexivity|].
  destruct (generate_mesh_arrays_block (np_full 513 513 0%Qc)
              (np_full 513 513 0%Qc))
    as (points & colors & Hrun & _).
  - eapply (has_shape_in_bounds _ 513 513); [vm_compute; reflexivity|lia|lia].
  - eapply (has_shape_in_bounds _ 513 513); [vm_compute; reflexivity|lia|lia].
  - eauto.
Qed.

(** C2, amended: [generate_mesh] checks no shape.  On grids of shapes
    [r × c] and [r' × c'] with at least 512 rows and 512 columns each (so on
    every 512 × 512 pair) the construction ends normally and reads the
    top-left 512 × 512 block only; when one of the grids has fewer than 512
    rows or fewer than 512 columns it raises [IndexError], and so does
    [generate_mesh]. *)
Theorem generate_mesh_shapes (dtm image : ndarray2) (r c r' c' : nat) :
  has_shape dtm r c = true → has_shape image r' c' = true →
  (512 ≤ r ∧ 512 ≤ c ∧ 512 ≤ r' ∧ 512 ≤ c' →
     ∃ points colors,
       generate_mesh_arrays dtm image = Ok (points, colors) ∧
       length points = W * H ∧ length colors = W * H ∧
       ∀ i j, i < 512 → j < 512 →
         ∃ z v, getitem2 dtm i j = Ok z ∧ getitem2 image i j = Ok v ∧
                points !! (i * H + j) = Some (point_row i j z) ∧
                colors !! (i * H + j) = Some (Row3 v v v)) ∧
  (r < 512 ∨ c < 512 ∨ r' < 512 ∨ c' < 512 →
     generate_mesh_arrays dtm image = Raise IndexError ∧
     ∀ lib stem, generate_mesh lib dtm image stem = Raise IndexError).
Proof.
  intros Hd Him. split.
  - intros (Hr & Hc & Hr' & Hc').
    apply generate_mesh_arrays_block; eapply has_shape_in_bounds; eauto.
  - intros Hshort.
    assert (generate_mesh_arrays dtm image = Raise IndexError) as Hraise.
    { unfold generate_mesh_arrays, W, H.
      destruct (build_arrays 512 512 dtm image) as [st|e] eqn:Hrun.
      - exfalso.
        assert (∃ i j, i < 512 ∧ j < 512 ∧
                  (getitem2 dtm i j = Raise IndexError ∨
                   getitem2 image i j = Raise IndexError))
          as (i & j & Hi & Hj & Hbad).
        { destruct (decide (r < 512 ∨ c < 512)) as [Hdtm|Hdtm].
          - destruct (has_shape_short dtm r c 512 512 Hd) as (i & j & ? & ? & ?);
              [lia|lia|done|eauto 6].
          - destruct (has_shape_short image r' c' 512 512 Him)
              as (i & j & ? & ? & ?); [lia|lia|lia|eauto 6]. }
        destruct (build_arrays_Ok_reads _ _ _ _ _ i j Hrun Hi Hj)
          as (z & v & Hz & Hv).
        destruct Hbad; congruence.
      - by rewrite (build_arrays_Raise _ _ _ _ _ Hrun). }
    split; [done|]. intros lib stem. unfold generate_mesh.
    rewrite Hraise. done.
Qed.

Lemma generate_mesh_shapes_witness :
  (∃ points colors,
     generate_mesh_arrays (np_full 512 512 0%Qc) (np_full 600 700 0%Qc)
       = Ok (points, colors)) ∧
  generate_mesh_arrays (np_full 512 511 0%Qc) (np_full 512 512 0%Qc)
    = Raise IndexError.
Proof.
  split.
  - destruct (generate_mesh_shapes (np_full 512 512 0%Qc)
                (np_full 600 700 0%Qc) 512 512 600 700)
      as [Hok _]; [vm_compute; reflexivity|vm_compute; reflexivity|].
    destruct Hok as (points & colors & Hrun & _); [lia|]. eauto.
  - destruct (generate_mesh_shapes (np_full 512 511 0%Qc)
                (np_full 512 512 0%Qc) 512 511 512 512)
      as [_ Hbad]; [vm_compute; reflexivity|vm_compute; reflexivity|].
    apply Hbad. lia.
Defined.

(** C9: for a column [j] below 512 the x coordinate [abs(j - 512)] is
    [512 - j], an integer from 1 to 512 and never 0; two pixels of the grid
    with the same stored (x, y) are the same pixel. *)
Theorem point_x_mirror :
  (∀ j, j < 512 →
     point_x j = (512 - Z.of_nat j)%Z ∧ (1 ≤ point_x j ≤ 512)%Z ∧
     point_x j ≠ 0%Z) ∧
  (∀ i j i' j', i < 512 → j < 512 → i' < 512 → j' < 512 →
     (Qc_of_Z (point_x j), Qc_of_Z (point_y i)) =
       (Qc_of_Z (point_x j'), Qc_of_Z (point_y i')) →
     (i, j) = (i', j')).
Proof.
  split.
  - intros j Hj. unfold point_x. lia.
  - intros i j i' j' Hi Hj Hi' Hj' Heq.
    apply pair_equal_spec in Heq as [Hx Hy].
    apply Z2Qc_inj in Hx, Hy. unfold point_x, point_y in *.
    f_equal; lia.
Qed.

Lemma point_x_mirror_witness :
  (point_x 0 = 512%Z ∧ point_x 511 = 1%Z) ∧
  ((2, 3) = (2, 3)).
Proof.
  destruct point_x_mirror as [Hx Hinj]. split.
  - destruct (Hx 0) as [-> _]; [lia|]. destruct (Hx 511) as [-> _]; [lia|].
    split; reflexivity.
  - apply Hinj; [lia|lia|lia|lia|reflexivity].
Defined.

(** ** Maximum, minimum and inversion *)

Lemma Qc_max_l (x y : Qc) : (x ≤ Qc_max x y)%Qc.
Proof.
  unfold Qc_max. case_decide; [done|]. apply Qcle_refl.
Qed.

Lemma Qc_max_r (x y : Qc) : (y ≤ Qc_max x y)%Qc.
Proof.
  unfold Qc_max. case_decide; [apply Qcle_refl|].
  apply Qclt_le_weak, Qclt_nge. done.
Qed.

Lemma Qc_min_l (x y : Qc) : (Qc_min x y ≤ x)%Qc.
Proof.
  unfold Qc_min. case_decide; [apply Qcle_refl|].
  apply Qclt_le_weak, Qclt_nge. done.
Qed.

Lemma Qc_min_r (x y : Qc) : (Qc_min x y ≤ y)%Qc.
Proof. unfold Qc_min. case_decide; [done|]. apply Qcle_refl. Qed.

Lemma Qc_rsub_le (m x y : Qc) : (m - x ≤ m - y)%Qc ↔ (y ≤ x)%Qc.
Proof.
  unfold Qcminus. rewrite <- Qcplus_le_mono_l. split; intros Hle.
  - apply Qcopp_le_compat in Hle. by rewrite !Qcopp_involutive in Hle.
  - by apply Qcopp_le_compat.
Qed.


Lemma Qc_min_rsub (m x y : Qc) :
  Qc_min (m - x) (m - y) = (m - Qc_max x y)%Qc.
Proof.
  unfold Qc_max, Qc_min. repeat case_decide; try done.
  - f_equal. apply Qcle_antisym; [done|]. by apply (Qc_rsub_le m).
  - exfalso. apply H0. rewrite Qc_rsub_le.
    apply Qclt_le_weak, Qclt_nge. done.
Qed.

Lemma foldl_Qc_max_ge (vs : list Qc) (v x : Qc) :
  x ∈ v :: vs → (x ≤ foldl Qc_max v vs)%Qc.
Proof.
  revert v x. induction vs as [|w vs IH]; intros v x Hx; simpl.
  - apply list_elem_of_singleton in Hx as ->. apply Qcle_refl.
  - apply elem_of_cons in Hx as [->|Hx].
    + eapply Qcle_trans; [apply (Qc_max_l v w)|]. apply IH. left.
    + apply elem_of_cons in Hx as [->|Hx].
      * eapply Qcle_trans; [apply (Qc_max_r v w)|]. apply IH. left.
      * apply IH. by right.
Qed.

Lemma foldl_Qc_max_elem (vs : list Qc) (v : Qc) : foldl Qc_max v vs ∈ v :: vs.
Proof.
  revert v. induction vs as [|w vs IH]; intros v; simpl; [left|].
  specialize (IH (Qc_max v w)). apply elem_of_cons in IH as [Heq|Hin].
  - rewrite Heq. unfold Qc_max. case_decide; [right; left|left].
  - right. by right.
Qed.


Lemma foldl_Qc_min_rsub (m : Qc) (vs : list Qc) (v : Qc) :
  foldl Qc_min (m - v)%Qc (map (fun x => (m - x)%Qc) vs) =
  (m - foldl Qc_max v vs)%Qc.
Proof.
  revert v. induction vs as [|w vs IH]; intros v; simpl; [done|].
  rewrite Qc_min_rsub. apply IH.
Qed.

Lemma getitem2_concat (a : ndarray2) (i j : nat) (v : Qc) :
  getitem2 a i j = Ok v → v ∈ concat a.
Proof.
  unfold getitem2. destruct (a !! i) as [row|] eqn:Hrow; [|discriminate].
  destruct (row !! j) as [x|] eqn:Hx; [|discriminate]. intros [= ->].
  apply list_elem_of_In, in_concat. exists row.
  split; apply list_elem_of_In, list_elem_of_lookup; eauto.
Qed.

Lemma concat_getitem2 (a : ndarray2) (v : Qc) :
  v ∈ concat a → ∃ i j, getitem2 a i j = Ok v.
Proof.
  intros Hv. apply list_elem_of_In, in_concat in Hv as (row & Hrow & Hx).
  apply list_elem_of_In, list_elem_of_lookup in Hrow as [i Hi].
  apply list_elem_of_In, list_elem_of_lookup in Hx as [j Hj].
  exists i, j. unfold getitem2. by rewrite Hi, Hj.
Qed.

Lemma concat_rsub_scalar (m : Qc) (a : ndarray2) :
  concat (rsub_scalar m a) = map (fun v => (m - v)%Qc) (concat a).
Proof. unfold rsub_scalar. by rewrite concat_map. Qed.

(** [a.max()] is a cell of [a] and bounds every cell. *)
Lemma np_max_spec (a : ndarray2) (m : Qc) :
  np_max a = Ok m →
  (∀ i j v, getitem2 a i j = Ok v → (v ≤ m)%Qc) ∧
  (∃ i j, getitem2 a i j = Ok m).
Proof.
  unfold np_max. destruct (concat a) as [|v vs] eqn:Hcat; [discriminate|].
  intros [= <-]. split.
  - intros i j x Hx. apply foldl_Qc_max_ge. rewrite <- Hcat.
    eapply getitem2_concat, Hx.
  - apply concat_getitem2. rewrite Hcat. apply foldl_Qc_max_elem.
Qed.

Lemma getitem2_rsub_scalar (m : Qc) (a : ndarray2) (i j : nat) (v : Qc) :
  getitem2 a i j = Ok v → getitem2 (rsub_scalar m a) i j = Ok (m - v)%Qc.
Proof.
  unfold getitem2, rsub_scalar. rewrite list_lookup_fmap.
  destruct (a !! i) as [row|]; simpl; [|discriminate].
  rewrite list_lookup_fmap. destruct (row !! j); simpl; congruence.
Qed.

Lemma getitem2_rsub_scalar_inv (m : Qc) (a : ndarray2) (i j : nat) (x : Qc) :
  getitem2 (rsub_scalar m a) i j = Ok x →
  ∃ v, getitem2 a i j = Ok v ∧ x = (m - v)%Qc.
Proof.
  unfold getitem2, rsub_scalar. rewrite list_lookup_fmap.
  destruct (a !! i) as [row|]; simpl; [|discriminate].
  rewrite list_lookup_fmap. destruct (row !! j) as [v|]; simpl; [|discriminate].
  intros [= <-]. eauto.
Qed.



Lemma np_min_rsub_scalar (a : ndarray2) (m hi : Qc) :
  np_max a = Ok hi → np_min (rsub_scalar m a) = Ok (m - hi)%Qc.
Proof.
  unfold np_min, np_max. rewrite concat_rsub_scalar.
  destruct (concat a) as [|v vs]; [discriminate|]. intros [= <-]. simpl.
  by rewrite foldl_Qc_min_rsub.
Qed.


Lemma Qc_rsub_diag (m : Qc) : (m - m)%Qc = 0%Qc.
Proof. ring. Qed.

Lemma Qc_rsub_nonneg (m v : Qc) : (v ≤ m)%Qc → (0 ≤ m - v)%Qc.
Proof. intros Hle. rewrite <- (Qc_rsub_diag m). by apply Qc_rsub_le. Qed.

Lemma np_max_defined (a : ndarray2) (i j : nat) (v : Qc) :
  getitem2 a i j = Ok v → ∃ m, np_max a = Ok m.
Proof.
  intros Hv. apply getitem2_concat in Hv. unfold np_max.
  destruct (concat a); [by apply elem_of_nil in Hv | eauto].
Qed.

Lemma np_max_has_shape (a : ndarray2) (r c : nat) :
  has_shape a r c = true → 0 < r → 0 < c → ∃ m, np_max a = Ok m.
Proof.
  intros Hs Hr Hc.
  destruct (has_shape_getitem2 a r c 0 0 Hs Hr Hc) as [v Hv].
  eapply np_max_defined, Hv.
Qed.

Lemma getitem2_np_full (r c i j : nat) (v : Qc) :
  i < r → j < c → getitem2 (np_full r c v) i j = Ok v.
Proof.
  intros Hi Hj. unfold getitem2, np_full.
  rewrite lookup_replicate_2 by done. by rewrite lookup_replicate_2.
Qed.

Lemma getitem2_np_full_inv (r c i j : nat) (v x : Qc) :
  getitem2 (np_full r c v) i j = Ok x → x = v.
Proof.
  unfold getitem2, np_full.
  destruct (replicate r (replicate c v) !! i) as [row|] eqn:Hrow;
    [|discriminate].
  apply lookup_replicate in Hrow as [-> _].
  destruct (replicate c v !! j) as [y|] eqn:Hy; [|discriminate].
  apply lookup_replicate in Hy as [-> _]. congruence.
Qed.

Lemma np_max_np_full (r c : nat) (v : Qc) :
  0 < r → 0 < c → np_max (np_full r c v) = Ok v.
Proof.
  intros Hr Hc.
  destruct (np_max_defined (np_full r c v) 0 0 v) as [m Hm];
    [by apply getitem2_np_full|].
  destruct (np_max_spec _ _ Hm) as [_ (i & j & Hij)].
  apply getitem2_np_full_inv in Hij. congruence.
Qed.

Lemma rsub_scalar_np_full (m : Qc) (r c : nat) (v : Qc) :
  rsub_scalar m (np_full r c v) = np_full r c (m - v)%Qc.
Proof. unfold rsub_scalar, np_full. by rewrite !fmap_replicate. Qed.

(** Every row of [points] is the point of a pixel of the grid. *)
Lemma build_arrays_rows n dtm image points colors k row :
  build_arrays n n dtm image = Ok (points, colors) →
  points !! k = Some row →
  ∃ i j z, i < n ∧ j < n ∧ getitem2 dtm i j = Ok z ∧ row = point_row i j z.
Proof.
  intros Hrun Hk.
  destruct (build_arrays_block n dtm image)
    as (points' & colors' & Hrun' & Hl1 & _ & Hcells).
  - intros i j Hi Hj.
    destruct (build_arrays_Ok_reads _ _ _ _ _ i j Hrun Hi Hj) as (z & _ & ? & _).
    eauto.
  - intros i j Hi Hj.
    destruct (build_arrays_Ok_reads _ _ _ _ _ i j Hrun Hi Hj) as (_ & c & _ & ?).
    eauto.
  - rewrite Hrun in Hrun'. injection Hrun' as <- <-.
    apply lookup_lt_Some in Hk as Hlt. rewrite Hl1 in Hlt.
    assert (n ≠ 0) as Hn by lia.
    assert (k `div` n < n) as Hi by (apply Nat.Div0.div_lt_upper_bound; lia).
    assert (k `mod` n < n) as Hj by (by apply Nat.mod_upper_bound).
    destruct (Hcells _ _ Hi Hj) as (z & c & Hz & _ & Hp & _).
    assert (k `div` n * n + k `mod` n = k) as Hdm.
    { rewrite (Nat.div_mod_eq k n) at 3. lia. }
    rewrite Hdm in Hp. exists (k `div` n), (k `mod` n), z.
    repeat split; try done. congruence.
Qed.

(** ** [predict]: inversion and colour scale *)

(** C3: for a network output [pred] with at least one cell, the grid that
    [predict] hands to [generate_mesh] and to [imshow] is the inversion of
    [pred], computed once (line 71): each of its cells is the maximum [m] of
    [pred] minus the cell of [pred], and so is the z coordinate of each point
    and each cell of the displayed image. *)
Theorem predict_inverts_dtm (t : torch) (lib : open3d) (plt : matplotlib)
    (model : Module t) (pil_image : list (list Z)) (stem : string) (r c : nat) :
  let pred := forward_numpy t model (to_tensor t pil_image) in
  has_shape pred r c = true → 0 < r → 0 < c →
  ∃ m, np_max pred = Ok m ∧
    let dtm := rsub_scalar m pred in
    invert_dtm pred = Ok dtm ∧
    (∀ i j v, getitem2 pred i j = Ok v → getitem2 dtm i j = Ok (m - v)%Qc) ∧
    (∀ i j x, getitem2 dtm i j = Ok x →
       ∃ v, getitem2 pred i j = Ok v ∧ x = (m - v)%Qc) ∧
    predict t lib plt model pil_image stem =
      (let* obj := generate_mesh lib dtm (scale_image pil_image) stem in
       let* im := imshow_dtm dtm in
       Ok (draw_with_colorbar plt im, obj)) ∧
    (∀ im, imshow_dtm dtm = Ok im → im_data im = dtm) ∧
    (∀ points colors i j v,
       generate_mesh_arrays dtm (scale_image pil_image) = Ok (points, colors) →
       i < 512 → j < 512 → getitem2 pred i j = Ok v →
       col2 <$> points !! (i * H + j) = Some (m - v)%Qc).
Proof.
  intros pred Hshape Hr Hc.
  destruct (np_max_has_shape pred r c Hshape Hr Hc) as [m Hm].
  exists m. split; [done|]. intros dtm.
  assert (invert_dtm pred = Ok dtm) as Hinv.
  { unfold invert_dtm. rewrite Hm. done. }
  split; [done|]. split; [apply getitem2_rsub_scalar|].
  split; [apply getitem2_rsub_scalar_inv|]. split.
  { unfold predict. fold pred. rewrite Hinv. done. }
  split.
  { intros im. unfold imshow_dtm. destruct (np_max dtm); simpl; [|discriminate].
    by intros [= <-]. }
  intros points colors i j v Hrun Hi Hj Hv.
  destruct (generate_mesh_arrays_block dtm (scale_image pil_image))
    as (points' & colors' & Hrun' & _ & _ & Hcells).
  - intros i' j' Hi' Hj'.
    destruct (build_arrays_Ok_reads _ _ _ _ _ i' j' Hrun Hi' Hj')
      as (z & _ & ? & _). eauto.
  - intros i' j' Hi' Hj'.
    destruct (build_arrays_Ok_reads _ _ _ _ _ i' j' Hrun Hi' Hj')
      as (_ & c' & _ & ?). eauto.
  - rewrite Hrun in Hrun'. injection Hrun' as <- <-.
    destruct (Hcells i j Hi Hj) as (z & c' & Hz & _ & Hp & _).
    rewrite Hp. simpl. apply (getitem2_rsub_scalar m) in Hv.
    fold dtm in Hv. congruence.
Qed.

Lemma predict_inverts_dtm_witness :
  ∃ m, np_max [[Qc_of_Z 1; Qc_of_Z 3]] = Ok m ∧
       invert_dtm [[Qc_of_Z 1; Qc_of_Z 3]] =
         Ok (rsub_scalar m [[Qc_of_Z 1; Qc_of_Z 3]]) ∧
       getitem2 (rsub_scalar m [[Qc_of_Z 1; Qc_of_Z 3]]) 0 0 =
         Ok (m - Qc_of_Z 1)%Qc.
Proof.
  destruct (predict_inverts_dtm (fake_torch [[Qc_of_Z 1; Qc_of_Z 3]])
              fake_open3d fake_matplotlib tt [[0; 255]%Z] "esp_012345" 1 2)
    as (m & Hm & Hinv & Hcell & _);
    [vm_compute; reflexivity|lia|lia|].
  exists m. split; [exact Hm|]. split; [exact Hinv|].
  apply Hcell. reflexivity.
Defined.

(** C6: on a grid with at least one cell the [imshow] call of [predict] has
    [vmin = 0] and [vmax] the maximum of the grid it displays, a cell of that
    grid that bounds every cell; on a constant grid the call is made all the
    same, with [vmax] the constant, and after the inversion of a constant
    prediction with [vmin = vmax = 0]: the renderer stage of [predict]
    computes a maximum and no quotient. *)
Theorem imshow_color_scale :
  (∀ dtm r c, has_shape dtm r c = true → 0 < r → 0 < c →
     ∃ m, np_max dtm = Ok m ∧
       imshow_dtm dtm =
         Ok {| im_data := dtm; im_cmap := "jet";
               im_vmin := 0%Qc; im_vmax := m |} ∧
       (∀ i j v, getitem2 dtm i j = Ok v → (v ≤ m)%Qc) ∧
       (∃ i j, getitem2 dtm i j = Ok m)) ∧
  (∀ r c v, 0 < r → 0 < c →
     imshow_dtm (np_full r c v) =
       Ok {| im_data := np_full r c v; im_cmap := "jet";
             im_vmin := 0%Qc; im_vmax := v |}) ∧
  (∀ r c v, 0 < r → 0 < c →
     invert_dtm (np_full r c v) = Ok (np_full r c 0%Qc) ∧
     imshow_dtm (np_full r c 0%Qc) =
       Ok {| im_data := np_full r c 0%Qc; im_cmap := "jet";
             im_vmin := 0%Qc; im_vmax := 0%Qc |}).
Proof.
  assert (∀ r c v, 0 < r → 0 < c →
            imshow_dtm (np_full r c v) =
              Ok (Imshow (np_full r c v) "jet" 0%Qc v)) as Hconst.
  { intros r c v Hr Hc. unfold imshow_dtm. by rewrite np_max_np_full. }
  split; [|split].
  - intros dtm r c Hshape Hr Hc.
    destruct (np_max_has_shape dtm r c Hshape Hr Hc) as [m Hm].
    exists m. split; [done|]. split; [|by apply np_max_spec].
    unfold imshow_dtm. by rewrite Hm.
  - exact Hconst.
  - intros r c v Hr Hc. split; [|by apply Hconst].
    unfold invert_dtm. rewrite np_max_np_full by done. simpl.
    by rewrite rsub_scalar_np_full, Qc_rsub_diag.
Qed.

Lemma imshow_color_scale_witness :
  (∃ m, np_max [[Qc_of_Z 2; Qc_of_Z 0]] = Ok m ∧
        imshow_dtm [[Qc_of_Z 2; Qc_of_Z 0]] =
          Ok (Imshow [[Qc_of_Z 2; Qc_of_Z 0]] "jet" 0%Qc m)) ∧
  imshow_dtm (np_full 2 2 (Qc_of_Z 5)) =
    Ok (Imshow (np_full 2 2 (Qc_of_Z 5)) "jet" 0%Qc (Qc_of_Z 5)) ∧
  invert_dtm (np_full 2 2 (Qc_of_Z 5)) = Ok (np_full 2 2 0%Qc).
Proof.
  destruct imshow_color_scale as (Hmax & Hconst & Hzero).
  split; [|split].
  - destruct (Hmax [[Qc_of_Z 2; Qc_of_Z 0]] 1 2) as (m & Hm & Him & _);
      [vm_compute; reflexivity|lia|lia|].
    exists m. split; [exact Hm | exact Him].
  - apply Hconst; lia.
  - apply Hzero; lia.
Defined.

(** C10: for a network output [pred] with at least one cell and maximum
    [m], after the inversion every cell of the grid is nonnegative, its
    minimum is 0, and a cell where the network output was maximal is 0; so
    every z coordinate of the point cloud is nonnegative and the [vmax] of
    the [imshow] call is the maximum minus the minimum of the displayed
    grid. *)
Theorem inverted_dtm_nonneg (pred : ndarray2) (r c : nat) :
  has_shape pred r c = true → 0 < r → 0 < c →
  ∃ m, np_max pred = Ok m ∧
    let dtm := rsub_scalar m pred in
    (∀ i j v, getitem2 dtm i j = Ok v → (0 ≤ v)%Qc) ∧
    np_min dtm = Ok 0%Qc ∧
    (∀ i j, getitem2 pred i j = Ok m → getitem2 dtm i j = Ok 0%Qc) ∧
    (∃ i j, getitem2 dtm i j = Ok 0%Qc) ∧
    (∀ image points colors k row,
       generate_mesh_arrays dtm image = Ok (points, colors) →
       points !! k = Some row → (0 ≤ col2 row)%Qc) ∧
    (∃ hi lo, np_max dtm = Ok hi ∧ np_min dtm = Ok lo ∧
              imshow_dtm dtm = Ok (Imshow dtm "jet" 0%Qc hi) ∧
              hi = (hi - lo)%Qc).
Proof.
  intros Hshape Hr Hc.
  destruct (np_max_has_shape pred r c Hshape Hr Hc) as [m Hm].
  exists m. split; [done|]. intros dtm.
  destruct (np_max_spec _ _ Hm) as [Hle (i0 & j0 & Hmax)].
  assert (∀ i j v, getitem2 dtm i j = Ok v → (0 ≤ v)%Qc) as Hnonneg.
  { intros i j x Hx. apply getitem2_rsub_scalar_inv in Hx as (v & Hv & ->).
    apply Qc_rsub_nonneg. eapply Hle, Hv. }
  assert (np_min dtm = Ok 0%Qc) as Hmin.
  { unfold dtm. rewrite (np_min_rsub_scalar pred m m Hm).
    by rewrite Qc_rsub_diag. }
  assert (∀ i j, getitem2 pred i j = Ok m → getitem2 dtm i j = Ok 0%Qc)
    as Hzero.
  { intros i j Hij. apply (getitem2_rsub_scalar m) in Hij.
    by rewrite Qc_rsub_diag in Hij. }
  split; [done|]. split; [done|]. split; [done|].
  split; [eauto|]. split.
  - intros image points colors k row Hrun Hk.
    destruct (build_arrays_rows _ _ _ _ _ _ _ Hrun Hk)
      as (i & j & z & _ & _ & Hz & ->).
    simpl. eapply Hnonneg, Hz.
  - destruct (np_max_defined dtm i0 j0 0%Qc (Hzero _ _ Hmax)) as [hi Hhi].
    exists hi, 0%Qc. split; [done|]. split; [done|].
    split; [unfold imshow_dtm; by rewrite Hhi | ring].
Qed.

Lemma inverted_dtm_nonneg_witness :
  ∃ m, np_max [[Qc_of_Z 1; Qc_of_Z 3]] = Ok m ∧
       np_min (rsub_scalar m [[Qc_of_Z 1; Qc_of_Z 3]]) = Ok 0%Qc.
Proof.
  destruct (inverted_dtm_nonneg [[Qc_of_Z 1; Qc_of_Z 3]] 1 2)
    as (m & Hm & _ & Hmin & _); [vm_compute; reflexivity|lia|lia|].
  exists m. split; [exact Hm | exact Hmin].
Defined.

(** ** [load_model]: the key transform *)

Lemma str_from_app (p s : string) : str_from (String.length p) (p ++ s) = s.
Proof. induction p as [|a p IH]; simpl; [by destruct s | done]. Qed.

Lemma str_from_length (n : nat) (s : string) :
  String.length (str_from n s) = String.length s - n.
Proof.
  revert s. induction n as [|n IH]; intros s; simpl; [lia|].
  destruct s as [|a s]; simpl; [done | apply IH].
Qed.

(** A key of at least [n] characters is its first [n] characters followed by
    its slice from [n]. *)
Lemma str_from_split (n : nat) (s : string) :
  n ≤ String.length s →
  ∃ p, String.length p = n ∧ s = (p ++ str_from n s)%string.
Proof.
  revert s. induction n as [|n IH]; intros s Hlen.
  - exists EmptyString. by destruct s.
  - destruct s as [|a s]; simpl in Hlen; [lia|].
    destruct (IH s) as (p & Hp & Hs); [lia|].
    exists (String a p). simpl. split; [lia|].
    change (String a s = String a (p ++ str_from n s)%string). by rewrite <- Hs.
Qed.

Lemma dict_get_setitem_eq {V : Type} (k : string) (v : V) (d : dict V) :
  dict_get k (dict_setitem k v d) = Some v.
Proof.
  induction d as [|[k' v'] d IH]; simpl.
  - by rewrite decide_True.
  - destruct (decide (k' = k)) as [->|Hne]; simpl.
    + by rewrite decide_True.
    + by rewrite decide_False.
Qed.

Lemma dict_get_setitem_ne {V : Type} (k k' : string) (v : V) (d : dict V) :
  k ≠ k' → dict_get k' (dict_setitem k v d) = dict_get k' d.
Proof.
  intros Hne. induction d as [|[k1 v1] d IH]; simpl.
  - by rewrite decide_False.
  - destruct (decide (k1 = k)) as [->|Hne1]; simpl.
    + by rewrite !decide_False.
    + by rewrite IH.
Qed.

Lemma dict_setitem_fresh {V : Type} (k : string) (v : V) (d : dict V) :
  k ∉ dict_keys d → dict_setitem k v d = d ++ [(k, v)].
Proof.
  unfold dict_keys. induction d as [|[k' v'] d IH]; simpl; [done|].
  rewrite not_elem_of_cons. intros [Hne Hd].
  rewrite decide_False by done. by rewrite IH.
Qed.

Lemma dict_get_Some_elem {V : Type} (k : string) (v : V) (d : dict V) :
  dict_get k d = Some v → (k, v) ∈ d.
Proof.
  induction d as [|[k' v'] d IH]; simpl; [discriminate|].
  destruct (decide (k' = k)) as [->|Hne].
  - intros [= ->]. left.
  - intros Hd. right. by apply IH.
Qed.

Lemma strip_fold_get_inv {V : Type} (weights acc : dict V) (k' : string) (v : V) :
  dict_get k' (foldl strip_step acc weights) = Some v →
  dict_get k' acc = Some v ∨ ∃ k, (k, v) ∈ weights ∧ k' = str_from 6 k.
Proof.
  revert acc. induction weights as [|[k v0] weights IH]; intros acc; simpl.
  - by left.
  - intros Hget. destruct (IH _ Hget) as [Hacc|(k1 & Hk1 & ->)].
    + unfold strip_step in Hacc. simpl in Hacc.
      destruct (decide (str_from 6 k = k')) as [<-|Hne].
      * rewrite dict_get_setitem_eq in Hacc. injection Hacc as ->.
        right. exists k. split; [left | done].
      * rewrite dict_get_setitem_ne in Hacc by done. by left.
    + right. exists k1. split; [by right | done].
Qed.

Lemma strip_fold_get_is_Some {V : Type} (weights acc : dict V) (k' : string) :
  is_Some (dict_get k' acc) ∨ (∃ k v, (k, v) ∈ weights ∧ k' = str_from 6 k) →
  is_Some (dict_get k' (foldl strip_step acc weights)).
Proof.
  revert acc. induction weights as [|[k v0] weights IH]; intros acc; simpl.
  - intros [Hacc|(k & v & Hin & _)]; [done | by apply elem_of_nil in Hin].
  - intros Hcase. apply IH. unfold strip_step at 1. simpl.
    destruct (decide (str_from 6 k = k')) as [<-|Hne].
    { left. rewrite dict_get_setitem_eq. eauto. }
    rewrite dict_get_setitem_ne by done.
    destruct Hcase as [Hacc|(k1 & v1 & Hin & ->)]; [by left|].
    apply elem_of_cons in Hin as [[= -> ->]|Hin]; [done|].
    right. eauto.
Qed.

(** Without two items on the same stripped key, the comprehension is a map
    over the items, in their order. *)
Lemma strip_fold_map {V : Type} (weights acc : dict V) :
  NoDup (dict_keys acc ++ dict_keys (strip_item <$> weights)) →
  foldl strip_step acc weights = acc ++ (strip_item <$> weights).
Proof.
  revert acc. induction weights as [|[k v] weights IH]; intros acc; simpl.
  - intros _. by rewrite app_nil_r.
  - intros Hnd. unfold strip_step at 2. simpl.
    rewrite dict_setitem_fresh.
    + rewrite IH.
      * by rewrite <- app_assoc.
      * unfold dict_keys in *. rewrite fmap_app. simpl.
        rewrite <- app_assoc. done.
    + apply NoDup_app in Hnd as (_ & Hdisj & _). intros Hin.
      apply (Hdisj _ Hin). left.
Qed.

Lemma dict_keys_strip_item {V : Type} (weights : dict V) :
  dict_keys (strip_item <$> weights) = str_from 6 <$> dict_keys weights.
Proof.
  unfold dict_keys. rewrite <- !list_fmap_compose. done.
Qed.

Section shared_prefix.
Local Opaque str_from.
Context {V : Type} (prefix : string) (weights : dict V).
Hypothesis prefix_length : String.length prefix = 6.
Hypothesis keys_NoDup : NoDup (dict_keys weights).
Hypothesis keys_prefixed :
  ∀ k, k ∈ dict_keys weights → ∃ name, k = (prefix ++ name)%string.

Lemma str_from_prefixed (name : string) : str_from 6 (prefix ++ name) = name.
Proof. rewrite <- prefix_length. apply str_from_app. Qed.

Lemma stripped_keys_NoDup : NoDup (str_from 6 <$> dict_keys weights).
Proof.
  apply NoDup_fmap_2_strong; [|done].
  intros k1 k2 Hk1 Hk2 Heq.
  destruct (keys_prefixed k1 Hk1) as [n1 ->].
  destruct (keys_prefixed k2 Hk2) as [n2 ->].
  rewrite !str_from_prefixed in Heq. congruence.
Qed.

Lemma strip_keys_prefixed : strip_keys weights = strip_item <$> weights.
Proof.
  unfold strip_keys.
  change (foldl strip_step [] weights = strip_item <$> weights).
  rewrite strip_fold_map; [done|]. simpl.
  rewrite dict_keys_strip_item. apply stripped_keys_NoDup.
Qed.

Lemma dict_get_stripped (name : string) :
  dict_get name (strip_keys weights) = dict_get (prefix ++ name) weights.
Proof.
  rewrite strip_keys_prefixed. clear keys_NoDup.
  induction weights as [|[k v] d IH]; simpl; [done|].
  destruct (keys_prefixed k) as [n ->]; [left|].
  rewrite str_from_prefixed.
  destruct (decide (n = name)) as [->|Hne].
  - by rewrite decide_True.
  - rewrite decide_False.
    + apply IH. intros k' Hk'. apply keys_prefixed. by right.
    + intros Heq. apply Hne.
      by rewrite <- (str_from_prefixed n), Heq, str_from_prefixed.
Qed.

Lemma dict_keys_stripped :
  dict_keys weights = String.append prefix <$> dict_keys (strip_keys weights).
Proof.
  rewrite strip_keys_prefixed, dict_keys_strip_item.
  rewrite <- list_fmap_compose. clear keys_NoDup.
  induction (dict_keys weights) as [|k ks IH]; simpl; [done|].
  destruct (keys_prefixed k) as [n ->]; [left|].
  rewrite str_from_prefixed. f_equal.
  apply IH. intros k' Hk'. apply keys_prefixed. by right.
Qed.
End shared_prefix.

Lemma append_prefix_inj (prefix a b : string) :
  (prefix ++ a)%string = (prefix ++ b)%string → a = b.
Proof.
  intros Heq.
  by rewrite <- (str_from_app prefix a), Heq, str_from_app.
Qed.

(** C4: [load_model] loads into the network the checkpoint dictionary
    re-keyed by [k[6:]] and nothing else: every key of the loaded dictionary
    is a checkpoint key without its first 6 characters, with a value of such
    a key, and every checkpoint key gives one (a key of 6 characters or more
    is its first 6 characters followed by the new key).  When the checkpoint keys are
    a 6-character prefix followed by the pairwise distinct names [names], the
    loaded dictionary has exactly the keys [names], in order, each with the
    value of its prefixed key, and a network that accepts the keys [names]
    loads it. *)
Theorem load_model_strips_prefix (t : torch) (state_dict : dict (Tensor t)) :
  load_model t state_dict =
    (let* model := load_state_dict t (GLPDepth t (Qc_of_Z 700))
                     (strip_keys state_dict) in
     Ok (eval_mode t model)) ∧
  (∀ k' v, dict_get k' (strip_keys state_dict) = Some v →
     ∃ k, (k, v) ∈ state_dict ∧ k' = str_from 6 k) ∧
  (∀ k v, (k, v) ∈ state_dict →
     is_Some (dict_get (str_from 6 k) (strip_keys state_dict)) ∧
     String.length (str_from 6 k) = String.length k - 6 ∧
     (6 ≤ String.length k →
      ∃ p, String.length p = 6 ∧ k = (p ++ str_from 6 k)%string)) ∧
  (∀ prefix names,
     String.length prefix = 6 → NoDup names →
     dict_keys state_dict = String.append prefix <$> names →
     dict_keys (strip_keys state_dict) = names ∧
     strip_keys state_dict = strip_item <$> state_dict ∧
     (∀ name, dict_get name (strip_keys state_dict) =
              dict_get (prefix ++ name)%string state_dict) ∧
     ((∀ d, dict_keys d = names →
            ∃ net, load_state_dict t (GLPDepth t (Qc_of_Z 700)) d = Ok net) →
      ∃ net, load_model t state_dict = Ok net)).
Proof.
  split; [done|]. split; [|split].
  - intros k' v Hget. unfold strip_keys in Hget.
    apply (strip_fold_get_inv state_dict []) in Hget as [Hnil|Hk]; [|done].
    discriminate.
  - intros k v Hin.
    split; [|split; [apply str_from_length | apply str_from_split]].
    apply (strip_fold_get_is_Some state_dict []). right. eauto.
  - intros prefix names Hlen Hnames Hkeys.
    assert (NoDup (dict_keys state_dict)) as Hnd.
    { rewrite Hkeys. apply NoDup_fmap_2_strong; [|done].
      intros a b _ _. apply append_prefix_inj. }
    assert (∀ k, k ∈ dict_keys state_dict → ∃ name, k = (prefix ++ name)%string)
      as Hpre.
    { intros k. rewrite Hkeys, list_elem_of_fmap. intros (name & -> & _). eauto. }
    assert (dict_keys (strip_keys state_dict) = names) as Hstripped.
    { rewrite (strip_keys_prefixed prefix) by done.
      rewrite dict_keys_strip_item, Hkeys, <- list_fmap_compose.
      rewrite <- (list_fmap_id names) at 2. apply list_fmap_ext.
      intros _ name _. exact (str_from_prefixed prefix Hlen name). }
    split; [done|]. split; [by apply (strip_keys_prefixed prefix)|].
    split; [by apply dict_get_stripped|].
    intros Haccept. destruct (Haccept _ Hstripped) as [net Hnet].
    exists (eval_mode t net). unfold load_model. by rewrite Hnet.
Qed.

Lemma load_model_strips_prefix_witness :
  dict_keys (strip_keys [("model.encoder.weight", 1); ("model.decoder.bias", 2)]%string)
    = ["encoder.weight"; "decoder.bias"]%string ∧
  ∃ net, load_model (strict_torch ["encoder.weight"; "decoder.bias"]%string)
           [("model.encoder.weight", 1); ("model.decoder.bias", 2)]%string
         = Ok net.
Proof.
  destruct (load_model_strips_prefix
              (strict_torch ["encoder.weight"; "decoder.bias"]%string)
              [("model.encoder.weight", 1); ("model.decoder.bias", 2)]%string)
    as (_ & _ & _ & Hprefix).
  destruct (Hprefix "model."%string ["encoder.weight"; "decoder.bias"]%string)
    as (Hkeys & _ & _ & Hload).
  - reflexivity.
  - apply NoDup_cons. split; [|apply NoDup_singleton].
    rewrite list_elem_of_singleton. discriminate.
  - reflexivity.
  - split; [exact Hkeys|]. apply Hload. intros d Hd. exists tt. simpl.
    rewrite decide_True by exact Hd. reflexivity.
Defined.

(** ** [generate_mesh]: the post-processing sequence *)

(** C5: the mesh that [generate_mesh] writes is the reconstructed mesh after
    exactly six calls, in this order: [rotate] with the matrix of the Euler
    angles (π, 0, 0) about the centre (0, 0, 0), [compute_vertex_normals],
    [remove_degenerate_triangles], [remove_duplicated_triangles],
    [remove_duplicated_vertices], [remove_non_manifold_edges]; a library that
    records its calls records these six and no other. *)
Theorem generate_mesh_post_processing :
  (∀ (lib : open3d) (dtm image : ndarray2) (stem : string),
     generate_mesh lib dtm image stem =
       (let* (points, colors) := generate_mesh_arrays dtm image in
        let o := triangle_mesh lib in
        Ok (ObjFile (stem ++ ".obj")%string
             (remove_non_manifold_edges o
               (remove_duplicated_vertices o
                 (remove_duplicated_triangles o
                   (remove_degenerate_triangles o
                     (compute_vertex_normals o
                       (rotate o
                          (get_rotation_matrix_from_xyz o (Rad_pi, Rad_0, Rad_0))
                          (0, 0, 0)%Qc
                          (reconstruct lib points colors)))))))))) ∧
  (∀ log : list mesh_call,
     remove_artifacts recording_ops (mesh_transformations recording_ops log) =
       log ++ [CallRotate (Rad_pi, Rad_0, Rad_0) (0, 0, 0)%Qc;
               CallComputeVertexNormals;
               CallRemoveDegenerateTriangles;
               CallRemoveDuplicatedTriangles;
               CallRemoveDuplicatedVertices;
               CallRemoveNonManifoldEdges]).
Proof.
  split.
  - intros lib dtm image stem. unfold generate_mesh.
    destruct (generate_mesh_arrays dtm image) as [[points colors]|e]; done.
  - intros log. unfold remove_artifacts, mesh_transformations. simpl.
    by rewrite <- !app_assoc.
Qed.

(** ** The mesh operations: counts and clean-up *)

Module SpecMeshFacts.
Import SpecMesh.

(** The rotation with Euler angles (π, 0, 0) about the origin is the half
    turn about the x-axis. *)
Lemma rotate_pi_x (m : mesh) (i : nat) (v : vertex) (x y z : Qc) :
  vertices m !! i = Some v → position v = (x, y, z) →
  position <$>
    vertices (rotate_mesh (rotation_matrix_from_xyz (Rad_pi, Rad_0, Rad_0))
                (0, 0, 0)%Qc m) !! i = Some (x, - y, - z)%Qc.
Proof.
  intros Hv Hpos. unfold rotate_mesh. simpl.
  rewrite list_lookup_fmap, Hv. simpl. rewrite Hpos. f_equal.
  unfold rotation_matrix_from_xyz, mat_mul, mat_vec, mat_cols, rot_x, rot_y,
    rot_z, dot3, add3, sub3, cos_rad, sin_rad.
  repeat f_equal; ring.
Qed.

Lemma filter_length_le {A : Type} (f : A → bool) (l : list A) :
  length (List.filter f l) ≤ length l.
Proof. induction l as [|x l IH]; simpl; [done|]. destruct (f x); simpl; lia. Qed.

Lemma filter_all {A : Type} (f : A → bool) (l : list A) :
  Forall (fun x => f x = true) l → List.filter f l = l.
Proof. induction 1 as [|x l Hx _ IH]; simpl; [done|]. by rewrite Hx, IH. Qed.

Lemma filter_sublist {A : Type} (f : A → bool) (l : list A) :
  List.filter f l `sublist_of` l.
Proof.
  induction l as [|x l IH]; simpl; [constructor|].
  destruct (f x); by constructor.
Qed.

Lemma sublist_Forall_keep {A : Type} (P : A → Prop) (l k : list A) :
  l `sublist_of` k → Forall P k → Forall P l.
Proof.
  induction 1 as [|x l k _ IH|x l k _ IH]; intros Hk; [done| |].
  - apply Forall_cons in Hk as [Hx Hk]. constructor; auto.
  - apply Forall_cons in Hk as [_ Hk]. auto.
Qed.

Lemma nubbed_sublist {A : Type} (same : A → A → bool) (l k : list A) :
  l `sublist_of` k → nubbed same k → nubbed same l.
Proof.
  induction 1 as [|x l k Hlk IH|x l k _ IH]; simpl; [done| |].
  - intros [Hx Hk]. split; [|auto]. eapply sublist_Forall_keep; eauto.
  - intros [_ Hk]. auto.
Qed.

Lemma nub_by_length {A : Type} (same : A → A → bool) (l : list A) :
  length (nub_by same l) ≤ length l.
Proof.
  induction l as [|x l IH]; simpl; [done|].
  pose proof (filter_length_le (fun y => negb (same x y)) (nub_by same l)). lia.
Qed.

Lemma nub_by_sublist {A : Type} (same : A → A → bool) (l : list A) :
  nub_by same l `sublist_of` l.
Proof.
  induction l as [|x l IH]; simpl; [constructor|].
  constructor. etrans; [apply filter_sublist | done].
Qed.

Lemma nub_by_nubbed {A : Type} (same : A → A → bool) (l : list A) :
  nubbed same (nub_by same l).
Proof.
  induction l as [|x l IH]; simpl; [done|]. split.
  - apply Forall_forall. intros y Hy.
    apply list_elem_of_In, filter_In in Hy as [_ Hy].
    by apply negb_true_iff.
  - eapply nubbed_sublist; [apply filter_sublist | done].
Qed.

Lemma nubbed_nub_by {A : Type} (same : A → A → bool) (l : list A) :
  nubbed same l → nub_by same l = l.
Proof.
  induction l as [|x l IH]; simpl; [done|]. intros [Hx Hl].
  rewrite IH by done. f_equal. apply filter_all.
  eapply Forall_impl; [exact Hx|]. intros y Hy. simpl. by rewrite Hy.
Qed.

Lemma keep_manifold_app (kept ts : list triangle) :
  ∃ r, keep_manifold kept ts = kept ++ r ∧ r `sublist_of` ts.
Proof.
  revert kept. induction ts as [|t ts IH]; intros kept; simpl.
  - exists []. by rewrite app_nil_r.
  - destruct (fits kept t).
    + destruct (IH (kept ++ [t])) as (r & -> & Hr). exists (t :: r).
      rewrite <- app_assoc. split; [done | by constructor].
    + destruct (IH kept) as (r & -> & Hr). exists r.
      split; [done | by constructor].
Qed.

Lemma keep_manifold_sublist (ts : list triangle) :
  keep_manifold [] ts `sublist_of` ts.
Proof. destruct (keep_manifold_app [] ts) as (r & -> & Hr). done. Qed.

Lemma manifold_order_snoc (l : list triangle) (t : triangle) :
  manifold_order l → fits l t = true → manifold_order (l ++ [t]).
Proof.
  intros Hl Ht pre t' post Heq.
  destruct post as [|u post _] using rev_ind.
  - apply app_inj_tail in Heq as [-> ->]. done.
  - rewrite app_comm_cons, app_assoc in Heq.
    apply app_inj_tail in Heq as [-> _]. by eapply Hl.
Qed.

Lemma keep_manifold_order (kept ts : list triangle) :
  manifold_order kept → manifold_order (keep_manifold kept ts).
Proof.
  revert kept. induction ts as [|t ts IH]; intros kept Hk; simpl; [done|].
  destruct (fits kept t) eqn:Hfit; [|auto].
  apply IH. by apply manifold_order_snoc.
Qed.

Lemma keep_manifold_id (kept ts : list triangle) :
  manifold_order (kept ++ ts) → keep_manifold kept ts = kept ++ ts.
Proof.
  revert kept. induction ts as [|t ts IH]; intros kept Hk; simpl.
  - by rewrite app_nil_r.
  - rewrite (Hk kept t ts eq_refl). rewrite IH; rewrite <- app_assoc; done.
Qed.

Lemma keep_manifold_idem (ts : list triangle) :
  keep_manifold [] (keep_manifold [] ts) = keep_manifold [] ts.
Proof.
  apply (keep_manifold_id []). simpl. apply keep_manifold_order.
  intros pre t post Heq. by destruct pre.
Qed.

Lemma nubbed_coincident (vs : list vertex) :
  nubbed coincident vs ↔ distinct_positions vs.
Proof.
  unfold distinct_positions. induction vs as [|v vs IH]; simpl.
  - split; [constructor | done].
  - rewrite NoDup_cons, <- IH, Forall_forall, list_elem_of_fmap.
    unfold coincident. split; intros [Hv Hvs]; split; try done.
    + intros (u & Hpos & Hu). specialize (Hv u Hu).
      by apply bool_decide_eq_false in Hv.
    + intros u Hu. apply bool_decide_eq_false. intros Hpos. apply Hv. eauto.
Qed.

Lemma merged_index_distinct (vs : list vertex) (i : nat) :
  distinct_positions vs → merged_index vs vs i = i.
Proof.
  intros Hnd. unfold merged_index.
  destruct (vs !! i) as [v|] eqn:Hv; [|done].
  destruct (list_find _ vs) as [[k u]|] eqn:Hfind; [|done].
  apply list_find_Some in Hfind as (Hu & Hpos & _).
  eapply (NoDup_lookup _ _ _ (position v) Hnd); rewrite list_lookup_fmap.
  - by rewrite Hu, <- Hpos.
  - by rewrite Hv.
Qed.

Lemma remove_dup_vertices_distinct (m : mesh) :
  distinct_positions (vertices m) → remove_dup_vertices m = m.
Proof.
  intros Hnd. unfold remove_dup_vertices.
  rewrite (nubbed_nub_by coincident) by (by apply nubbed_coincident).
  destruct m as [vs ts]. simpl in *. f_equal.
  rewrite <- (map_id ts) at 2. apply map_ext. intros [[a b] c].
  by rewrite !merged_index_distinct.
Qed.

Lemma remove_artifacts_distinct (m : mesh) :
  distinct_positions (vertices m) →
  remove_artifacts ops m =
    Mesh (vertices m) (cleaned_triangles (vertices m) (triangles m)).
Proof.
  intros Hnd. unfold remove_artifacts. simpl.
  rewrite remove_dup_vertices_distinct by done. done.
Qed.

Lemma cleaned_triangles_idem (vs : list vertex) (ts : list triangle) :
  cleaned_triangles vs (cleaned_triangles vs ts) = cleaned_triangles vs ts.
Proof.
  unfold cleaned_triangles.
  set (ts3 := List.filter (fun t => negb (zero_area vs t)) ts).
  set (ts4 := nub_by same_vertex_set ts3).
  set (ts6 := keep_manifold [] ts4).
  assert (ts6 `sublist_of` ts4) as H64 by apply keep_manifold_sublist.
  assert (ts4 `sublist_of` ts3) as H43 by apply nub_by_sublist.
  rewrite filter_all.
  - rewrite nubbed_nub_by; [apply keep_manifold_idem|].
    eapply nubbed_sublist; [exact H64 | apply nub_by_nubbed].
  - eapply sublist_Forall_keep; [etrans; [exact H64 | exact H43]|].
    apply Forall_forall. intros t Ht.
    by apply list_elem_of_In, filter_In in Ht as [_ Ht].
Qed.

Lemma remove_artifacts_vertices (m : mesh) :
  vertices (remove_artifacts ops m) = nub_by coincident (vertices m).
Proof. done. Qed.

(** C7: in the model of the mesh written from the specification, each of
    the six post-processing steps (rotation, normal recomputation, removal of
    degenerate triangles, of duplicated triangles, of duplicated vertices, of
    non-manifold edges) leaves the vertex count and the triangle count less
    than or equal to what they were, and so does the whole sequence, from the
    reconstructed mesh to the cleaned one. *)
Theorem post_processing_counts (m : mesh) (r : matrix3) (center : point3) :
  counts_le (rotate_mesh r center m) m ∧
  counts_le (compute_normals m) m ∧
  counts_le (remove_degenerate m) m ∧
  counts_le (remove_dup_triangles m) m ∧
  counts_le (remove_dup_vertices m) m ∧
  counts_le (remove_non_manifold m) m ∧
  counts_le (remove_artifacts ops m) m ∧
  counts_le (remove_artifacts ops (mesh_transformations ops m)) m.
Proof.
  assert (∀ m, counts_le (remove_artifacts ops m) m) as Hclean.
  { intros m'. unfold counts_le, vertex_count, triangle_count.
    unfold remove_artifacts. simpl. split; [apply nub_by_length|].
    etrans; [apply sublist_length, keep_manifold_sublist|].
    rewrite length_map. etrans; [apply nub_by_length|].
    apply filter_length_le. }
  unfold counts_le, vertex_count, triangle_count.
  repeat split; simpl; rewrite ?length_map, ?length_imap; try done.
  - apply filter_length_le.
  - apply nub_by_length.
  - apply nub_by_length.
  - apply sublist_length, keep_manifold_sublist.
  - apply Hclean.
  - apply Hclean.
  - pose proof (Hclean (mesh_transformations ops m)) as [Hv _].
    unfold vertex_count in Hv. etrans; [exact Hv|].
    simpl. by rewrite length_imap, length_map.
  - pose proof (Hclean (mesh_transformations ops m)) as [_ Ht].
    unfold triangle_count in Ht. etrans; [exact Ht|]. done.
Qed.

Lemma remove_artifacts_idem (m : mesh) :
  distinct_positions (vertices m) →
  remove_artifacts ops (remove_artifacts ops m) = remove_artifacts ops m.
Proof.
  intros Hnd. rewrite (remove_artifacts_distinct m) by done.
  rewrite remove_artifacts_distinct by done. simpl.
  by rewrite cleaned_triangles_idem.
Qed.

(** After one run the vertices are at distinct positions, so every later run
    returns the mesh of the second one. *)
Lemma cleanup_stable_after_two (m : mesh) :
  remove_artifacts ops (remove_artifacts ops (remove_artifacts ops m)) =
  remove_artifacts ops (remove_artifacts ops m).
Proof.
  apply remove_artifacts_idem. rewrite remove_artifacts_vertices.
  apply nubbed_coincident, nub_by_nubbed.
Qed.

(** C8, on the model: on two triangles that differ by a pair of coincident
    vertices the first run of the four steps leaves two triangles (merging
    the vertices makes them equal only after the duplicate-triangle pass) and
    a second run leaves one. *)
Lemma cleanup_twice_differs :
  vertex_count twin_triangles = 4 ∧ triangle_count twin_triangles = 2 ∧
  triangle_count (remove_artifacts ops twin_triangles) = 2 ∧
  triangle_count (remove_artifacts ops (remove_artifacts ops twin_triangles)) = 1.
Proof. vm_compute. repeat split; reflexivity. Qed.

(** C8, amended: on a mesh whose vertices are at pairwise distinct
    positions the four-step clean-up is idempotent: a second run in a row
    returns the mesh of the first run, so the same vertex and triangle
    counts. *)
Theorem cleanup_idempotent_distinct (m : mesh) :
  distinct_positions (vertices m) →
  remove_artifacts ops (remove_artifacts ops m) = remove_artifacts ops m ∧
  vertex_count (remove_artifacts ops (remove_artifacts ops m)) =
    vertex_count (remove_artifacts ops m) ∧
  triangle_count (remove_artifacts ops (remove_artifacts ops m)) =
    triangle_count (remove_artifacts ops m).
Proof.
  intros Hnd. by rewrite (remove_artifacts_idem m Hnd).
Qed.

Lemma cleanup_idempotent_distinct_witness :
  remove_artifacts ops (remove_artifacts ops repeated_triangle) =
    remove_artifacts ops repeated_triangle ∧
  vertex_count (remove_artifacts ops (remove_artifacts ops repeated_triangle)) =
    vertex_count (remove_artifacts ops repeated_triangle) ∧
  triangle_count (remove_artifacts ops (remove_artifacts ops repeated_triangle)) =
    triangle_count (remove_artifacts ops repeated_triangle).
Proof.
  apply (cleanup_idempotent_distinct repeated_triangle).
  unfold distinct_positions. apply (bool_decide_unpack (NoDup _)).
  vm_compute. exact I.
Defined.

End SpecMeshFacts.

(** * Further properties *)

(** ** [load_model]: keys that collide *)

Lemma dict_get_app {V : Type} (k : string) (d1 d2 : dict V) :
  dict_get k (d1 ++ d2) =
  match dict_get k d1 with Some v => Some v | None => dict_get k d2 end.
Proof.
  induction d1 as [|[k1 v1] d1 IH]; simpl; [done|].
  by destruct (decide (k1 = k)).
Qed.

Lemma dict_get_is_Some {V : Type} (k : string) (d : dict V) :
  is_Some (dict_get k d) ↔ k ∈ dict_keys d.
Proof.
  unfold dict_keys. induction d as [|[k1 v1] d IH]; simpl.
  - rewrite elem_of_nil. split; [by intros [? ?] | done].
  - rewrite elem_of_cons. destruct (decide (k1 = k)) as [->|Hne].
    + split; eauto.
    + rewrite IH. split; [by right | by intros [?|?]].
Qed.

Lemma dict_get_strip_step {V : Type} (k' : string) (acc : dict V)
    (kv : string * V) :
  dict_get k' (strip_step acc kv) =
  if decide (str_from 6 kv.1 = k') then Some kv.2 else dict_get k' acc.
Proof.
  unfold strip_step. destruct (decide (str_from 6 kv.1 = k')) as [<-|Hne].
  - apply dict_get_setitem_eq.
  - by apply dict_get_setitem_ne.
Qed.

(** A lookup in the comprehension finds the last item with that new key. *)
Lemma strip_fold_get {V : Type} (weights acc : dict V) (k' : string) :
  dict_get k' (foldl strip_step acc weights) =
  match dict_get k' (reverse (strip_item <$> weights)) with
  | Some v => Some v
  | None => dict_get k' acc
  end.
Proof.
  revert acc. induction weights as [|[k v] weights IH]; intros acc; [done|].
  cbn [foldl fmap list_fmap]. rewrite IH, reverse_cons, dict_get_app.
  destruct (dict_get k' (reverse _)); [done|].
  rewrite dict_get_strip_step. unfold strip_item. cbn [dict_get fst snd].
  by destruct (decide (str_from 6 k = k')).
Qed.

Lemma dict_keys_setitem {V : Type} (k : string) (v : V) (d : dict V) :
  dict_keys (dict_setitem k v d) =
  if decide (k ∈ dict_keys d) then dict_keys d else dict_keys d ++ [k].
Proof.
  unfold dict_keys. induction d as [|[k1 v1] d IH]; csimpl.
  - done.
  - destruct (decide (k1 = k)) as [->|Hne]; csimpl.
    + rewrite decide_True; [done | left].
    + rewrite IH. destruct (decide (k ∈ d.*1)) as [Hin|Hout].
      * rewrite decide_True; [done | by right].
      * rewrite decide_False; [done|]. rewrite not_elem_of_cons. split; auto.
Qed.

Lemma dict_setitem_NoDup {V : Type} (k : string) (v : V) (d : dict V) :
  NoDup (dict_keys d) → NoDup (dict_keys (dict_setitem k v d)).
Proof.
  intros Hnd. rewrite dict_keys_setitem. case_decide; [done|].
  apply NoDup_app. split; [done|]. split; [|apply NoDup_singleton].
  intros x Hx. rewrite list_elem_of_singleton. by intros ->.
Qed.

Lemma dict_setitem_length {V : Type} (k : string) (v : V) (d : dict V) :
  length (dict_setitem k v d) ≤ S (length d).
Proof.
  induction d as [|[k1 v1] d IH]; simpl; [done|].
  destruct (decide (k1 = k)); simpl; lia.
Qed.

Lemma strip_fold_NoDup {V : Type} (weights acc : dict V) :
  NoDup (dict_keys acc) → NoDup (dict_keys (foldl strip_step acc weights)).
Proof.
  revert acc. induction weights as [|kv weights IH]; intros acc Hnd; [done|].
  simpl. apply IH. by apply dict_setitem_NoDup.
Qed.

Lemma strip_fold_length {V : Type} (weights acc : dict V) :
  length (foldl strip_step acc weights) ≤ length acc + length weights.
Proof.
  revert acc. induction weights as [|kv weights IH]; intros acc; simpl; [lia|].
  etrans; [apply IH|]. unfold strip_step.
  pose proof (dict_setitem_length (str_from 6 kv.1) kv.2 acc). lia.
Qed.

Lemma strip_keys_elem_of {V : Type} (weights : dict V) (k' : string) :
  k' ∈ dict_keys (strip_keys weights) ↔
  ∃ k, k ∈ dict_keys weights ∧ k' = str_from 6 k.
Proof.
  rewrite <- dict_get_is_Some. unfold strip_keys. split.
  - intros [v Hv]. apply strip_fold_get_inv in Hv as [Hnil|(k & Hk & ->)];
      [discriminate|].
    exists k. split; [|done]. unfold dict_keys.
    apply list_elem_of_fmap. by exists (k, v).
  - intros (k & Hk & ->). apply strip_fold_get_is_Some. right.
    unfold dict_keys in Hk. apply list_elem_of_fmap in Hk as ([k1 v] & -> & Hin).
    eauto.
Qed.

Lemma str_from_short (n : nat) (s : string) :
  String.length s ≤ n → str_from n s = EmptyString.
Proof.
  revert s. induction n as [|n IH]; intros [|a s]; simpl; try done; try lia.
  intros Hlen. apply IH. lia.
Qed.

(** X1: of the checkpoint items whose keys agree from the 7th character on,
    the network receives the value of the last one only, under the shared
    name. *)
Theorem strip_keys_last_wins {V : Type} (before after : dict V) (k : string)
    (v : V) :
  (∀ k2, k2 ∈ dict_keys after → str_from 6 k2 ≠ str_from 6 k) →
  dict_get (str_from 6 k) (strip_keys (before ++ (k, v) :: after)) = Some v.
Proof.
  intros Hafter. unfold strip_keys. rewrite strip_fold_get.
  rewrite fmap_app, reverse_app. cbn [fmap list_fmap].
  rewrite reverse_cons, <- app_assoc, dict_get_app.
  destruct (dict_get (str_from 6 k) (reverse (strip_item <$> after)))
    as [v'|] eqn:Hget.
  - exfalso. apply dict_get_Some_elem in Hget.
    apply elem_of_reverse, list_elem_of_fmap in Hget as ([k2 v2] & Heq & Hin).
    injection Heq as Hk _. apply (Hafter k2); [|done].
    unfold dict_keys. apply list_elem_of_fmap. by exists (k2, v2).
  - simpl. by rewrite decide_True.
Qed.

Lemma strip_keys_last_wins_witness :
  dict_get "encoder.weight"
    (strip_keys [("model.encoder.weight", 1); ("model.bias", 2);
                 ("extra.encoder.weight", 3)]%string) = Some 3.
Proof.
  apply (strip_keys_last_wins
           [("model.encoder.weight", 1); ("model.bias", 2)]%string []
           "extra.encoder.weight"%string 3).
  intros k2 Hk2. by apply elem_of_nil in Hk2.
Defined.

(** X2: whatever the checkpoint, the dictionary given to the network has
    pairwise distinct keys, which are exactly the checkpoint keys from their
    7th character on; it has no more items than the checkpoint, and as many
    exactly when no two checkpoint keys agree from the 7th character on. *)
Theorem strip_keys_entries {V : Type} (weights : dict V) :
  NoDup (dict_keys (strip_keys weights)) ∧
  (∀ k', k' ∈ dict_keys (strip_keys weights) ↔
         ∃ k, k ∈ dict_keys weights ∧ k' = str_from 6 k) ∧
  length (strip_keys weights) ≤ length weights ∧
  (length (strip_keys weights) = length weights ↔
   NoDup (str_from 6 <$> dict_keys weights)).
Proof.
  assert (NoDup (dict_keys (strip_keys weights))) as Hnd.
  { apply strip_fold_NoDup. constructor. }
  split; [done|]. split; [apply strip_keys_elem_of|].
  split; [apply (strip_fold_length weights [])|]. split.
  - intros Hlen. apply NoDup_ListNoDup.
    eapply NoDup_incl_NoDup; [apply NoDup_ListNoDup, Hnd| |].
    + unfold dict_keys. rewrite !length_fmap. lia.
    + intros k' Hk'. apply list_elem_of_In. apply list_elem_of_In in Hk'.
      apply strip_keys_elem_of in Hk' as (k & Hk & ->).
      apply list_elem_of_fmap. eauto.
  - intros Hdistinct. unfold strip_keys. rewrite strip_fold_map.
    + simpl. by rewrite length_fmap.
    + simpl. by rewrite dict_keys_strip_item.
Qed.

(** X3: when no checkpoint key has more than 6 characters, the network
    receives a single item: the value of the last checkpoint item, under the
    empty name. *)
Theorem strip_keys_short_keys {V : Type} (weights : dict V) (k0 : string)
    (v0 : V) :
  (∀ k, k ∈ dict_keys (weights ++ [(k0, v0)]) → String.length k ≤ 6) →
  strip_keys (weights ++ [(k0, v0)]) = [(EmptyString, v0)].
Proof.
  intros Hshort. unfold strip_keys.
  assert (∀ acc : dict V,
            acc = [] ∨ (∃ v, acc = [(EmptyString, v)]) →
            foldl strip_step acc (weights ++ [(k0, v0)]) = [(EmptyString, v0)])
    as Hfold; [|apply Hfold; by left].
  induction weights as [|[k v] weights IH]; intros acc Hacc.
  - cbn [app foldl]. unfold strip_step. cbn [fst snd].
    rewrite str_from_short by (apply Hshort; left).
    by destruct Hacc as [->|[v ->]].
  - cbn [app foldl]. apply IH.
    + intros k1 Hk1. apply Hshort. by right.
    + right. exists v. unfold strip_step. cbn [fst snd].
      rewrite str_from_short by (apply Hshort; left).
      by destruct Hacc as [->|[v' ->]].
Qed.

Lemma strip_keys_short_keys_witness :
  strip_keys [("w", 1); ("bias", 2); ("model.", 3)]%string
  = [(EmptyString, 3)].
Proof.
  apply (strip_keys_short_keys [("w", 1); ("bias", 2)]%string "model."%string 3).
  intros k Hk. unfold dict_keys in Hk. simpl in Hk.
  repeat (apply elem_of_cons in Hk as [->|Hk]; [simpl; lia|]).
  by apply elem_of_nil in Hk.
Defined.

(** ** [generate_mesh]: the arrays as a whole *)

(** After a normal run, row [k] of each array is the row of pixel
    [(k / n, k mod n)]. *)
Lemma build_arrays_lookup n dtm image points colors k :
  build_arrays n n dtm image = Ok (points, colors) → k < n * n →
  ∃ z c, getitem2 dtm (k `div` n) (k `mod` n) = Ok z ∧
         getitem2 image (k `div` n) (k `mod` n) = Ok c ∧
         points !! k = Some (point_row (k `div` n) (k `mod` n) z) ∧
         colors !! k = Some (Row3 c c c).
Proof.
  intros Hrun Hlt.
  destruct (build_arrays_block n dtm image)
    as (points' & colors' & Hrun' & _ & _ & Hcells).
  - intros i j Hi Hj.
    destruct (build_arrays_Ok_reads _ _ _ _ _ i j Hrun Hi Hj) as (z & _ & ? & _).
    eauto.
  - intros i j Hi Hj.
    destruct (build_arrays_Ok_reads _ _ _ _ _ i j Hrun Hi Hj) as (_ & c & _ & ?).
    eauto.
  - rewrite Hrun in Hrun'. injection Hrun' as <- <-.
    assert (n ≠ 0) as Hn by lia.
    assert (k `div` n < n) as Hi by (apply Nat.Div0.div_lt_upper_bound; lia).
    assert (k `mod` n < n) as Hj by (by apply Nat.mod_upper_bound).
    destruct (Hcells _ _ Hi Hj) as (z & c & Hz & Hc & Hp & Hcol).
    assert (k `div` n * n + k `mod` n = k) as Hdm.
    { rewrite (Nat.div_mod_eq k n) at 3. lia. }
    rewrite Hdm in Hp, Hcol. eauto 6.
Qed.

Lemma build_arrays_lengths n dtm image points colors :
  build_arrays n n dtm image = Ok (points, colors) →
  length points = n * n ∧ length colors = n * n.
Proof.
  intros Hrun.
  destruct (build_arrays_block n dtm image)
    as (points' & colors' & Hrun' & Hl1 & Hl2 & _).
  - intros i j Hi Hj.
    destruct (build_arrays_Ok_reads _ _ _ _ _ i j Hrun Hi Hj) as (z & _ & ? & _).
    eauto.
  - intros i j Hi Hj.
    destruct (build_arrays_Ok_reads _ _ _ _ _ i j Hrun Hi Hj) as (_ & c & _ & ?).
    eauto.
  - rewrite Hrun in Hrun'. by injection Hrun' as <- <-.
Qed.

(** The arrays of two runs that read the same cells are the same. *)
Lemma build_arrays_agree n dtm image dtm' image' :
  (∀ i j, i < n → j < n → getitem2 dtm i j = getitem2 dtm' i j) →
  (∀ i j, i < n → j < n → getitem2 image i j = getitem2 image' i j) →
  build_arrays n n dtm image = build_arrays n n dtm' image'.
Proof.
  assert (∀ dtm image dtm' image' st,
            (∀ i j, i < n → j < n → getitem2 dtm i j = getitem2 dtm' i j) →
            (∀ i j, i < n → j < n → getitem2 image i j = getitem2 image' i j) →
            build_arrays n n dtm image = Ok st →
            build_arrays n n dtm' image' = Ok st) as Hok.
  { clear. intros dtm image dtm' image' [points colors] Hd Him Hrun.
    destruct (build_arrays_block n dtm' image')
      as (points' & colors' & Hrun' & Hl1 & Hl2 & _).
    - intros i j Hi Hj. rewrite <- Hd by done.
      destruct (build_arrays_Ok_reads _ _ _ _ _ i j Hrun Hi Hj)
        as (z & _ & ? & _). eauto.
    - intros i j Hi Hj. rewrite <- Him by done.
      destruct (build_arrays_Ok_reads _ _ _ _ _ i j Hrun Hi Hj)
        as (_ & c & _ & ?). eauto.
    - rewrite Hrun'. f_equal.
      destruct (build_arrays_lengths _ _ _ _ _ Hrun) as [Hm1 Hm2].
      assert (∀ k, points' !! k = points !! k ∧ colors' !! k = colors !! k)
        as Heq.
      { intros k. destruct (decide (k < n * n)) as [Hk|Hk].
        - destruct (build_arrays_lookup _ _ _ _ _ k Hrun Hk)
            as (z & c & Hz & Hc & -> & ->).
          destruct (build_arrays_lookup _ _ _ _ _ k Hrun' Hk)
            as (z' & c' & Hz' & Hc' & -> & ->).
          assert (n ≠ 0) as Hn by lia.
          rewrite Hd in Hz
            by (try apply Nat.Div0.div_lt_upper_bound;
                try apply Nat.mod_upper_bound; lia).
          rewrite Him in Hc
            by (try apply Nat.Div0.div_lt_upper_bound;
                try apply Nat.mod_upper_bound; lia).
          split; congruence.
        - rewrite !lookup_ge_None_2 by lia. done. }
      f_equal; apply list_eq; intros k; apply Heq. }
  intros Hd Him.
  destruct (build_arrays n n dtm image) as [st|e] eqn:Hrun.
  - symmetry. eapply Hok; eauto.
  - destruct (build_arrays n n dtm' image') as [st'|e'] eqn:Hrun'.
    + rewrite (Hok dtm' image' dtm image st') in Hrun; try done.
      * intros i j Hi Hj. symmetry. by apply Hd.
      * intros i j Hi Hj. symmetry. by apply Him.
    + apply build_arrays_Raise in Hrun, Hrun'. congruence.
Qed.

(** X4: on grids of at least 512 × 512 cells no two rows of [points] are
    equal: the point cloud of [generate_mesh] has 262144 pairwise distinct
    points. *)
Theorem generate_mesh_points_distinct (dtm image : ndarray2) (r c r' c' : nat) :
  has_shape dtm r c = true → has_shape image r' c' = true →
  512 ≤ r → 512 ≤ c → 512 ≤ r' → 512 ≤ c' →
  ∃ points colors,
    generate_mesh_arrays dtm image = Ok (points, colors) ∧ NoDup points.
Proof.
  intros Hd Him Hr Hc Hr' Hc'.
  destruct (generate_mesh_arrays_block dtm image)
    as (points & colors & Hrun & Hl1 & _ & _);
    [eapply has_shape_in_bounds; eauto..|].
  exists points, colors. split; [done|].
  apply NoDup_alt. intros k k' row Hk Hk'.
  assert (k < 512 * 512) as Hlt.
  { apply lookup_lt_Some in Hk. rewrite Hl1 in Hk. exact Hk. }
  assert (k' < 512 * 512) as Hlt'.
  { apply lookup_lt_Some in Hk'. rewrite Hl1 in Hk'. exact Hk'. }
  destruct (build_arrays_lookup 512 _ _ _ _ k Hrun Hlt) as (z & _ & _ & _ & Hp & _).
  destruct (build_arrays_lookup 512 _ _ _ _ k' Hrun Hlt')
    as (z' & _ & _ & _ & Hp' & _).
  assert (point_row (k `div` 512) (k `mod` 512) z =
          point_row (k' `div` 512) (k' `mod` 512) z') as Hrow by congruence.
  pose proof (f_equal col0 Hrow) as Hx. pose proof (f_equal col1 Hrow) as Hy.
  cbn [point_row col0 col1] in Hx, Hy.
  apply Z2Qc_inj in Hx, Hy. unfold point_x, point_y in Hx, Hy.
  pose proof (Nat.mod_upper_bound k 512). pose proof (Nat.mod_upper_bound k' 512).
  pose proof (Nat.div_mod_eq k 512). pose proof (Nat.div_mod_eq k' 512). lia.
Qed.

Lemma generate_mesh_points_distinct_witness :
  ∃ points colors,
    generate_mesh_arrays (np_full 512 512 0%Qc) (np_full 512 512 0%Qc)
      = Ok (points, colors) ∧ NoDup points.
Proof.
  apply (generate_mesh_points_distinct (np_full 512 512 0%Qc)
           (np_full 512 512 0%Qc) 512 512 512 512);
    first [lia | vm_compute; reflexivity].
Defined.

(** X5: on grids of at least 512 × 512 cells every point has integer
    coordinates [x] in 1..512 and [y] in 0..511, its index in the arrays can
    be read back from them as [512 * y + (512 - x)], and every colour has
    three equal channels. *)
Theorem generate_mesh_point_coordinates (dtm image : ndarray2)
    (r c r' c' : nat) :
  has_shape dtm r c = true → has_shape image r' c' = true →
  512 ≤ r → 512 ≤ c → 512 ≤ r' → 512 ≤ c' →
  ∃ points colors,
    generate_mesh_arrays dtm image = Ok (points, colors) ∧
    (∀ k row, points !! k = Some row →
       ∃ x y : Z, col0 row = Qc_of_Z x ∧ col1 row = Qc_of_Z y ∧
                  (1 ≤ x ≤ 512)%Z ∧ (0 ≤ y ≤ 511)%Z ∧
                  Z.of_nat k = (512 * y + (512 - x))%Z) ∧
    (∀ k row, colors !! k = Some row →
       col0 row = col1 row ∧ col1 row = col2 row).
Proof.
  intros Hd Him Hr Hc Hr' Hc'.
  destruct (generate_mesh_arrays_block dtm image)
    as (points & colors & Hrun & Hl1 & Hl2 & _);
    [eapply has_shape_in_bounds; eauto..|].
  exists points, colors. split; [done|]. split.
  - intros k row Hk.
    assert (k < 512 * 512) as Hlt.
    { apply lookup_lt_Some in Hk. rewrite Hl1 in Hk. exact Hk. }
    destruct (build_arrays_lookup 512 _ _ _ _ k Hrun Hlt)
      as (z & _ & _ & _ & Hp & _).
    rewrite Hp in Hk. injection Hk as <-.
    exists (point_x (k `mod` 512)), (point_y (k `div` 512)).
    split; [done|]. split; [done|]. unfold point_x, point_y.
    pose proof (Nat.mod_upper_bound k 512). pose proof (Nat.div_mod_eq k 512).
    assert (k `div` 512 < 512) by (apply Nat.Div0.div_lt_upper_bound; lia).
    lia.
  - intros k row Hk.
    assert (k < 512 * 512) as Hlt.
    { apply lookup_lt_Some in Hk. rewrite Hl2 in Hk. exact Hk. }
    destruct (build_arrays_lookup 512 _ _ _ _ k Hrun Hlt)
      as (_ & v & _ & _ & _ & Hcol).
    rewrite Hcol in Hk. by injection Hk as <-.
Qed.

Lemma generate_mesh_point_coordinates_witness :
  ∃ points colors,
    generate_mesh_arrays (np_full 512 512 0%Qc) (np_full 600 512 0%Qc)
      = Ok (points, colors) ∧
    (∀ k row, points !! k = Some row →
       ∃ x y : Z, col0 row = Qc_of_Z x ∧ col1 row = Qc_of_Z y ∧
                  (1 ≤ x ≤ 512)%Z ∧ (0 ≤ y ≤ 511)%Z ∧
                  Z.of_nat k = (512 * y + (512 - x))%Z) ∧
    (∀ k row, colors !! k = Some row →
       col0 row = col1 row ∧ col1 row = col2 row).
Proof.
  apply (generate_mesh_point_coordinates (np_full 512 512 0%Qc)
           (np_full 600 512 0%Qc) 512 512 600 512);
    first [lia | vm_compute; reflexivity].
Defined.

(** X6: [generate_mesh] reads the top-left 512 × 512 block of its grids and
    nothing else: two pairs of grids that agree there, whatever their shapes
    and their other cells, give the same arrays, the same mesh file or the
    same error. *)
Theorem generate_mesh_reads_block (dtm image dtm' image' : ndarray2) :
  (∀ i j, i < 512 → j < 512 → getitem2 dtm i j = getitem2 dtm' i j) →
  (∀ i j, i < 512 → j < 512 → getitem2 image i j = getitem2 image' i j) →
  generate_mesh_arrays dtm image = generate_mesh_arrays dtm' image' ∧
  ∀ lib stem,
    generate_mesh lib dtm image stem = generate_mesh lib dtm' image' stem.
Proof.
  intros Hd Him.
  assert (generate_mesh_arrays dtm image = generate_mesh_arrays dtm' image')
    as Heq by exact (build_arrays_agree 512 dtm image dtm' image' Hd Him).
  split; [done|]. intros lib stem. unfold generate_mesh. by rewrite Heq.
Qed.

Lemma generate_mesh_reads_block_witness :
  generate_mesh_arrays (np_full 512 512 0%Qc) (np_full 512 512 0%Qc) =
  generate_mesh_arrays (np_full 513 600 0%Qc) (np_full 512 512 0%Qc).
Proof.
  apply (generate_mesh_reads_block (np_full 512 512 0%Qc)
           (np_full 512 512 0%Qc) (np_full 513 600 0%Qc)
           (np_full 512 512 0%Qc)).
  - intros i j Hi Hj. rewrite !getitem2_np_full by lia. reflexivity.
  - intros i j Hi Hj. reflexivity.
Defined.

(** X7: [generate_mesh] ends normally exactly when every cell of the top-left
    512 × 512 block of both grids exists, and then the file it writes is
    named after the stem with the suffix [.obj]; otherwise it raises
    [IndexError], and it raises nothing else. *)
Theorem generate_mesh_outcome (lib : open3d) (dtm image : ndarray2)
    (stem : string) :
  (in_bounds dtm 512 512 ∧ in_bounds image 512 512 ∧
   ∃ mesh, generate_mesh lib dtm image stem =
             Ok (ObjFile (stem ++ ".obj")%string mesh)) ∨
  (¬ (in_bounds dtm 512 512 ∧ in_bounds image 512 512) ∧
   generate_mesh lib dtm image stem = Raise IndexError).
Proof.
  unfold generate_mesh.
  destruct (generate_mesh_arrays dtm image) as [[points colors]|e] eqn:Hrun.
  - left. split; [|split].
    + intros i j Hi Hj.
      destruct (build_arrays_Ok_reads _ _ _ _ _ i j Hrun Hi Hj)
        as (z & _ & ? & _). eauto.
    + intros i j Hi Hj.
      destruct (build_arrays_Ok_reads _ _ _ _ _ i j Hrun Hi Hj)
        as (_ & v & _ & ?). eauto.
    + simpl. eauto.
  - right. split.
    + intros [Hd Him].
      destruct (generate_mesh_arrays_block dtm image Hd Him)
        as (points & colors & Hrun' & _). congruence.
    + apply build_arrays_Raise in Hrun as ->. done.
Qed.

(** ** [generate_mesh]: the row stride *)

Lemma for_in_app {S : Type} (xs ys : list nat) (body : nat → S → result S)
    (s : S) :
  for_in (xs ++ ys) body s = bind (for_in xs body s) (for_in ys body).
Proof.
  revert s. induction xs as [|x xs IH]; intros s; simpl; [done|].
  destruct (body x s) as [s'|e]; simpl; [apply IH | done].
Qed.

(** What every normal run of the body keeps, a normal run of the loop
    keeps. *)
Lemma for_in_preserves {S : Type} (Q : S → Prop) (body : nat → S → result S)
    (xs : list nat) (s s' : S) :
  (∀ x t t', Q t → body x t = Ok t' → Q t') →
  Q s → for_in xs body s = Ok s' → Q s'.
Proof.
  intros Hbody. revert s. induction xs as [|x xs IH]; intros s HQ Hrun.
  - by injection Hrun as <-.
  - simpl in Hrun. apply bind_Ok_inv in Hrun as (s1 & Hb & Hrest).
    eapply IH; [|exact Hrest]. eapply Hbody; eauto.
Qed.

Lemma setitem_Ok (a a' : ndarray_n3) (k c : nat) (v : Qc) :
  setitem a k c v = Ok a' → k < length a ∧ length a' = length a.
Proof.
  unfold setitem. destruct (a !! k) as [r|] eqn:Hr; [|discriminate].
  intros Hset. apply bind_Ok_inv in Hset as (r' & _ & [= <-]).
  rewrite length_insert. split; [by eapply lookup_lt_Some | done].
Qed.

Lemma setitem_row_Ok (a a' : ndarray_n3) (k : nat) (v : Qc) :
  setitem_row a k v = Ok a' → k < length a ∧ length a' = length a.
Proof.
  unfold setitem_row. destruct (a !! k) as [r|] eqn:Hr; [|discriminate].
  intros [= <-]. rewrite length_insert.
  split; [by eapply lookup_lt_Some | done].
Qed.

(** A normal run of the loop body wrote inside the arrays and kept their
    lengths. *)
Lemma cell_body_Ok_index h dtm image i j points colors st' :
  cell_body h dtm image i j (points, colors) = Ok st' →
  i * h + j < length points ∧ i * h + j < length colors ∧
  length st'.1 = length points ∧ length st'.2 = length colors.
Proof.
  unfold cell_body. intros Hb.
  apply bind_Ok_inv in Hb as (p1 & H1 & Hb). apply setitem_Ok in H1 as [Hk1 Hl1].
  apply bind_Ok_inv in Hb as (p2 & H2 & Hb). apply setitem_Ok in H2 as [_ Hl2].
  apply bind_Ok_inv in Hb as (z & _ & Hb).
  apply bind_Ok_inv in Hb as (p3 & H3 & Hb). apply setitem_Ok in H3 as [_ Hl3].
  apply bind_Ok_inv in Hb as (c & _ & Hb).
  apply bind_Ok_inv in Hb as (c1 & H4 & Hb).
  apply setitem_row_Ok in H4 as [Hk4 Hl4].
  injection Hb as <-. simpl. repeat split; congruence.
Qed.

(** X8: the arrays have [W * H] rows and the row of pixel [(i, j)] is
    [i * H + j], for [i] below [H] and [j] below [W]: with module constants
    [0 < W < H] the loop would reach row index [W * H] at [i = W] and end in
    [IndexError] on every input. *)
Theorem build_arrays_stride (w h : nat) (dtm image : ndarray2) :
  0 < w → w < h → build_arrays w h dtm image = Raise IndexError.
Proof.
  intros Hw Hwh.
  destruct (build_arrays w h dtm image) as [st|e] eqn:Hrun;
    [|by rewrite (build_arrays_Raise _ _ _ _ _ Hrun)].
  exfalso. unfold build_arrays, range in Hrun.
  assert (seq 0 h = seq 0 w ++ w :: seq (S w) (h - w - 1)) as Hseq.
  { replace h with (w + S (h - w - 1)) at 1 by lia. by rewrite seq_app. }
  rewrite Hseq, for_in_app in Hrun.
  apply bind_Ok_inv in Hrun as (s1 & Hfirst & Hrest).
  assert (length s1.1 = w * h) as Hlen.
  { eapply (for_in_preserves (fun st => length st.1 = w * h)); [|
      |exact Hfirst].
    - intros i t t' Ht Hrow.
      eapply (for_in_preserves (fun st => length st.1 = w * h)); [|exact Ht
        |exact Hrow].
      intros j [p c] u' Hu Hcell.
      apply cell_body_Ok_index in Hcell as (_ & _ & Hl & _).
      simpl in Hu. congruence.
    - unfold np_zeros. simpl. apply length_replicate. }
  cbn [for_in plus] in Hrest.
  apply bind_Ok_inv in Hrest as (s2 & Hrow & _).
  assert (seq 0 w = 0 :: seq 1 (w - 1)) as Hrange.
  { by replace w with (S (w - 1)) at 1 by lia. }
  rewrite Hrange in Hrow. cbn [for_in] in Hrow.
  apply bind_Ok_inv in Hrow as (s3 & Hcell & _).
  destruct s1 as [points colors].
  apply cell_body_Ok_index in Hcell as (Hk & _). simpl in Hlen. lia.
Qed.

Lemma build_arrays_stride_witness :
  build_arrays 1 2 (np_full 2 2 0%Qc) (np_full 2 2 0%Qc) = Raise IndexError.
Proof. apply build_arrays_stride; lia. Defined.

(** ** [predict]: what the inversion keeps *)











(** ** [predict]: the scaled image and the outcomes *)

Lemma has_shape_scale_image (pil_image : list (list Z)) (r c : nat) :
  has_shape (scale_image pil_image) r c = image_shape pil_image r c.
Proof.
  unfold has_shape, image_shape, scale_image. rewrite length_map. f_equal.
  induction pil_image as [|row rows IH]; simpl; [done|].
  by rewrite length_map, IH.
Qed.

Lemma scale_pixel_unit (p : Z) :
  (0 ≤ p ≤ 255)%Z →
  (0 ≤ Qc_of_Z p / Qc_of_Z 255)%Qc ∧ (Qc_of_Z p / Qc_of_Z 255 ≤ 1)%Qc.
Proof.
  intros [Hlo Hhi]. unfold Qcdiv.
  assert (0 < Qc_of_Z 255)%Qc as Hpos.
  { rewrite <- Z2Qc_inj_0. by apply (proj1 (Z2Qc_inj_lt 0 255)). }
  assert (0 ≤ / Qc_of_Z 255)%Qc as Hinv by (by apply Qclt_le_weak, Qcinv_pos).
  split.
  - apply Qcmult_nonneg_nonneg; [|done]. rewrite <- Z2Qc_inj_0.
    by apply (proj1 (Z2Qc_inj_le 0 p)).
  - rewrite <- (Qcmult_inv_r (Qc_of_Z 255)).
    + apply Qcmult_le_mono_nonneg_r; [done|].
      by apply (proj1 (Z2Qc_inj_le p 255)).
    + intros Heq. rewrite Heq in Hpos. by apply Qclt_not_eq in Hpos.
Qed.

Lemma getitem2_scale_image (pil_image : list (list Z)) (i j : nat) (v : Qc) :
  pixels_8bit pil_image = true → getitem2 (scale_image pil_image) i j = Ok v →
  (0 ≤ v)%Qc ∧ (v ≤ 1)%Qc.
Proof.
  unfold pixels_8bit, getitem2, scale_image. intros Hpix.
  rewrite list_lookup_fmap.
  destruct (pil_image !! i) as [row|] eqn:Hrow; simpl; [|discriminate].
  rewrite list_lookup_fmap.
  destruct (row !! j) as [p|] eqn:Hp; simpl; [|discriminate].
  intros [= <-]. apply scale_pixel_unit.
  rewrite forallb_forall in Hpix.
  assert (forallb (fun p => (0 <=? p)%Z && (p <=? 255)%Z) row = true) as Hr.
  { apply Hpix, list_elem_of_In, list_elem_of_lookup. eauto. }
  rewrite forallb_forall in Hr.
  assert ((0 <=? p)%Z && (p <=? 255)%Z = true) as Hb.
  { apply Hr, list_elem_of_In, list_elem_of_lookup. eauto. }
  apply andb_prop in Hb as [H0 H255]. lia.
Qed.

(** X12: for an 8-bit image and grids of at least 512 × 512 cells, every
    channel of every colour of the point cloud lies between 0 and 1. *)
Theorem predict_colors_unit (dtm : ndarray2) (pil_image : list (list Z))
    (r c r' c' : nat) :
  pixels_8bit pil_image = true →
  has_shape dtm r c = true → image_shape pil_image r' c' = true →
  512 ≤ r → 512 ≤ c → 512 ≤ r' → 512 ≤ c' →
  ∃ points colors,
    generate_mesh_arrays dtm (scale_image pil_image) = Ok (points, colors) ∧
    ∀ k row, colors !! k = Some row →
      (0 ≤ col0 row)%Qc ∧ (col0 row ≤ 1)%Qc ∧
      (0 ≤ col1 row)%Qc ∧ (col1 row ≤ 1)%Qc ∧
      (0 ≤ col2 row)%Qc ∧ (col2 row ≤ 1)%Qc.
Proof.
  intros Hpix Hd Him Hr Hc Hr' Hc'.
  rewrite <- has_shape_scale_image in Him.
  destruct (generate_mesh_arrays_block dtm (scale_image pil_image))
    as (points & colors & Hrun & _ & Hl2 & _);
    [eapply has_shape_in_bounds; eauto..|].
  exists points, colors. split; [done|]. intros k row Hk.
  assert (k < 512 * 512) as Hlt.
  { apply lookup_lt_Some in Hk. rewrite Hl2 in Hk. exact Hk. }
  destruct (build_arrays_lookup 512 _ _ _ _ k Hrun Hlt)
    as (_ & v & _ & Hv & _ & Hcol).
  rewrite Hcol in Hk. injection Hk as <-. simpl.
  destruct (getitem2_scale_image _ _ _ _ Hpix Hv). done.
Qed.

Lemma predict_colors_unit_witness :
  ∃ points colors,
    generate_mesh_arrays (np_full 512 512 0%Qc)
      (scale_image (replicate 512 (replicate 512 200%Z))) = Ok (points, colors) ∧
    ∀ k row, colors !! k = Some row →
      (0 ≤ col0 row)%Qc ∧ (col0 row ≤ 1)%Qc ∧
      (0 ≤ col1 row)%Qc ∧ (col1 row ≤ 1)%Qc ∧
      (0 ≤ col2 row)%Qc ∧ (col2 row ≤ 1)%Qc.
Proof.
  apply (predict_colors_unit (np_full 512 512 0%Qc)
           (replicate 512 (replicate 512 200%Z)) 512 512 512 512);
    first [lia | vm_compute; reflexivity].
Defined.





(** ** [predict]: the returned image array *)

Lemma reshape_replicate_lookup {A : Type} (m n : nat) (l : list A) (q : nat) :
  length l = m * n → q < m →
  reshape (replicate m n) l !! q = Some (take n (drop (q * n) l)).
Proof.
  revert l q. induction m as [|m IH]; intros l q Hlen Hq; [lia|].
  destruct q as [|q]; simpl; [done|].
  rewrite IH; [|rewrite length_drop; lia|lia].
  by rewrite drop_drop.
Qed.

Lemma reshape_replicate_lengths {A : Type} (m n : nat) (l : list A) :
  length l = m * n →
  Forall (fun chunk => length chunk = n) (reshape (replicate m n) l).
Proof.
  revert l. induction m as [|m IH]; intros l Hlen; simpl; [constructor|].
  constructor.
  - rewrite length_take. lia.
  - apply IH. rewrite length_drop. lia.
Qed.

Lemma concat_reshape_replicate {A : Type} (m n : nat) (l : list A) :
  length l = m * n → concat (reshape (replicate m n) l) = l.
Proof.
  revert l. induction m as [|m IH]; intros l Hlen; simpl.
  - symmetry. by apply nil_length_inv.
  - rewrite IH by (rewrite length_drop; lia). apply take_drop.
Qed.

Lemma np_reshape3_Ok {A : Type} (a : list A) (d0 d1 d2 : nat) :
  length a = d0 * d1 * d2 →
  np_reshape3 a (d0, d1, d2) =
    Ok (reshape (replicate d0 d1) (reshape (replicate (d0 * d1) d2) a)).
Proof. intros Hlen. unfold np_reshape3. by rewrite decide_True. Qed.

(** X15: when the canvas buffer has 3 bytes for each of its [w × h] pixels,
    the array that [predict] returns has [h] rows of [w] pixels of 3
    channels, and channel [c] of the pixel in row [y] and column [x] is byte
    [(y * w + x) * 3 + c] of the buffer. *)
Theorem canvas_array_pixels (rgb : list Byte.byte) (w h : nat) :
  length rgb = w * h * 3 →
  ∃ data,
    canvas_array rgb (w, h) = Ok data ∧
    length data = h ∧
    Forall (fun row => length row = w ∧
                       Forall (fun pixel => length pixel = 3) row) data ∧
    (∀ y x c, y < h → x < w → c < 3 →
       getitem3 data y x c = rgb !! ((y * w + x) * 3 + c)).
Proof.
  intros Hlen. unfold canvas_array, raster_shape. cbn [fst snd].
  assert (length rgb = h * w * 3) as Hlen' by lia.
  rewrite np_reshape3_Ok by done.
  set (pixels := reshape (replicate (h * w) 3) rgb).
  assert (length pixels = h * w) as Hpix.
  { unfold pixels. by rewrite length_reshape, length_replicate. }
  eexists. split; [done|]. split; [by rewrite length_reshape, length_replicate|].
  split.
  - pose proof (reshape_replicate_lengths h w pixels Hpix) as Hrows.
    rewrite Forall_forall in Hrows. apply Forall_forall. intros row Hrow.
    split; [by apply Hrows|].
    apply Forall_forall. intros pixel Hpixel.
    pose proof (reshape_replicate_lengths (h * w) 3 rgb Hlen') as Hall.
    rewrite Forall_forall in Hall. apply Hall. fold pixels.
    apply list_elem_of_lookup in Hrow as [y Hy].
    assert (y < h) as Hylt.
    { apply lookup_lt_Some in Hy.
      by rewrite length_reshape, length_replicate in Hy. }
    rewrite reshape_replicate_lookup in Hy by done. injection Hy as <-.
    by apply subseteq_take, subseteq_drop in Hpixel.
  - intros y x c Hy Hx Hc. unfold getitem3.
    rewrite reshape_replicate_lookup by done. simpl.
    rewrite lookup_take_lt, lookup_drop by done.
    unfold pixels at 1. rewrite reshape_replicate_lookup by (done || nia).
    simpl. by rewrite lookup_take_lt, lookup_drop by done.
Qed.

Lemma canvas_array_pixels_witness :
  ∃ data,
    canvas_array [Byte.x01; Byte.x02; Byte.x03; Byte.x04; Byte.x05; Byte.x06]
      (2, 1) = Ok data ∧
    length data = 1 ∧
    Forall (fun row => length row = 2 ∧
                       Forall (fun pixel => length pixel = 3) row) data ∧
    (∀ y x c, y < 1 → x < 2 → c < 3 →
       getitem3 data y x c =
       [Byte.x01; Byte.x02; Byte.x03; Byte.x04; Byte.x05; Byte.x06]
         !! ((y * 2 + x) * 3 + c)).
Proof.
  apply (canvas_array_pixels
           [Byte.x01; Byte.x02; Byte.x03; Byte.x04; Byte.x05; Byte.x06] 2 1).
  reflexivity.
Defined.

(** X16: the reshape of line 83 ends normally exactly when the buffer has
    [w * h * 3] bytes, and [ValueError] is raised otherwise; the returned
    array, read row by row and pixel by pixel, is the buffer again. *)
Theorem canvas_array_flat (rgb : list Byte.byte) (w h : nat) :
  (length rgb = w * h * 3 ∧
   ∃ data, canvas_array rgb (w, h) = Ok data ∧ concat (concat data) = rgb) ∨
  (length rgb ≠ w * h * 3 ∧ canvas_array rgb (w, h) = Raise ValueError).
Proof.
  destruct (decide (length rgb = w * h * 3)) as [Hlen|Hlen].
  - left. split; [done|]. unfold canvas_array, raster_shape. cbn [fst snd].
    assert (length rgb = h * w * 3) as Hlen' by lia.
    rewrite np_reshape3_Ok by done. eexists. split; [done|].
    rewrite concat_reshape_replicate
      by (by rewrite length_reshape, length_replicate).
    by apply concat_reshape_replicate.
  - right. split; [done|]. unfold canvas_array, raster_shape, np_reshape3.
    cbn [fst snd]. rewrite decide_False; [done | lia].
Qed.

(** ** The example list of the interface *)

Lemma str_le_alt (a b : string) :
  str_le a b ↔ a = b ∨ String_as_OT.lt a b.
Proof.
  unfold str_le, String.leb.
  destruct (String.compare a b) eqn:Hcmp.
  - apply String_as_OT.cmp_eq in Hcmp. split; [by left | done].
  - apply String_as_OT.cmp_lt in Hcmp. split; [by right | done].
  - split; [discriminate|]. intros [->|Hlt].
    + assert (String.compare b b = Eq) as Heq by (by apply String_as_OT.cmp_eq).
      congruence.
    + apply String_as_OT.cmp_lt in Hlt. unfold String_as_OT.cmp in Hlt.
      congruence.
Qed.

#[local] Instance str_le_total : Total str_le.
Proof. intros a b. apply String.leb_total. Qed.

#[local] Instance str_le_antisymm : AntiSymm (=) str_le.
Proof. intros a b. apply String.leb_antisym. Qed.

#[local] Instance str_le_trans : Transitive str_le.
Proof.
  intros a b c. rewrite !str_le_alt. intros [->|Hab] [->|Hbc]; auto.
  right. eapply String_as_OT.lt_trans; eauto.
Qed.

Lemma examples_of_names (listing : list string) :
  str_from 9 <$> (examples_of listing).*1 = merge_sort str_le listing.
Proof.
  unfold examples_of. rewrite <- !list_fmap_compose.
  rewrite <- (list_fmap_id (merge_sort str_le listing)) at 2.
  apply list_fmap_ext. intros _ name _. done.
Qed.

(** X17: the example list does not depend on the order in which
    [os.listdir] answers: two listings of the same names give the same
    examples. *)
Theorem examples_of_listing_order (listing listing' : list string) :
  listing ≡ₚ listing' → examples_of listing = examples_of listing'.
Proof.
  intros Hperm. unfold examples_of. f_equal.
  apply (StronglySorted_unique str_le).
  - apply StronglySorted_merge_sort; apply _.
  - apply StronglySorted_merge_sort; apply _.
  - by rewrite !merge_sort_Permutation.
Qed.

Lemma examples_of_listing_order_witness :
  examples_of ["crater.png"; "dune.png"; "basin.png"]%string =
  examples_of ["basin.png"; "crater.png"; "dune.png"]%string.
Proof.
  apply (examples_of_listing_order ["crater.png"; "dune.png"; "basin.png"]%string
           ["basin.png"; "crater.png"; "dune.png"]%string).
  apply (bool_decide_unpack _). vm_compute. exact I.
Defined.

(** X18: the example list has one entry per name of the listing, each the
    path [examples/<name>] with the number 3; the names, read back from the
    paths by dropping 9 characters, are the listing in ascending order. *)
Theorem examples_of_entries (listing : list string) :
  length (examples_of listing) = length listing ∧
  Forall (fun e => e.2 = 3%Z ∧
                   e.1 = ("examples/" ++ str_from 9 e.1)%string ∧
                   str_from 9 e.1 ∈ listing) (examples_of listing) ∧
  str_from 9 <$> (examples_of listing).*1 ≡ₚ listing ∧
  Sorted str_le (str_from 9 <$> (examples_of listing).*1).
Proof.
  split; [|split; [|split]].
  - unfold examples_of. rewrite length_fmap.
    apply Permutation_length, merge_sort_Permutation.
  - apply Forall_forall. intros e He. unfold examples_of in He.
    apply list_elem_of_fmap in He as (name & -> & Hname).
    split; [done|]. split; [done|]. cbn [fst].
    change (str_from 9 ("examples/" ++ name)%string) with name.
    by rewrite merge_sort_Permutation in Hname.
  - rewrite examples_of_names. apply merge_sort_Permutation.
  - rewrite examples_of_names. apply Sorted_merge_sort. apply _.
Qed.

(** ** [predict]: the intensity scale, and what each array depends on *)

Lemma getitem2_scale_image_pixel (pil_image : list (list Z)) (i j : nat) (p : Z) :
  pil_image !! i ≫= (.!! j) = Some p →
  getitem2 (scale_image pil_image) i j = Ok (Qc_of_Z p / Qc_of_Z 255)%Qc.
Proof.
  unfold getitem2, scale_image. rewrite list_lookup_fmap.
  destruct (pil_image !! i) as [row|]; simpl; [|discriminate].
  rewrite list_lookup_fmap. by intros ->.
Qed.

(** X19: the division by 255 keeps the shape of the image, sends 0 to 0 and
    255 to 1, and keeps the order of the grey levels: a pixel is at most as
    bright as another exactly when its intensity is at most the other's, so
    distinct levels get distinct intensities. *)
Theorem scale_image_levels (pil_image : list (list Z)) (r c : nat) :
  has_shape (scale_image pil_image) r c = image_shape pil_image r c ∧
  (∀ i j p, pil_image !! i ≫= (.!! j) = Some p →
     getitem2 (scale_image pil_image) i j = Ok (Qc_of_Z p / Qc_of_Z 255)%Qc) ∧
  (Qc_of_Z 0 / Qc_of_Z 255 = 0)%Qc ∧ (Qc_of_Z 255 / Qc_of_Z 255 = 1)%Qc ∧
  (∀ p q : Z, (p ≤ q)%Z ↔
              (Qc_of_Z p / Qc_of_Z 255 ≤ Qc_of_Z q / Qc_of_Z 255)%Qc) ∧
  (∀ p q : Z, (Qc_of_Z p / Qc_of_Z 255 = Qc_of_Z q / Qc_of_Z 255)%Qc → p = q).
Proof.
  assert (0 < Qc_of_Z 255)%Qc as Hpos.
  { rewrite <- Z2Qc_inj_0. by apply (proj1 (Z2Qc_inj_lt 0 255)). }
  assert (0 < / Qc_of_Z 255)%Qc as Hinv by (by apply Qcinv_pos).
  assert (Qc_of_Z 255 ≠ 0%Qc) as Hne.
  { intros Heq. rewrite Heq in Hpos. by apply Qclt_not_eq in Hpos. }
  assert (∀ p q : Z, (p ≤ q)%Z ↔
            (Qc_of_Z p / Qc_of_Z 255 ≤ Qc_of_Z q / Qc_of_Z 255)%Qc) as Hmono.
  { intros p q. unfold Qcdiv. rewrite <- Qcmult_le_mono_pos_r by done.
    apply Z2Qc_inj_le. }
  split; [apply has_shape_scale_image|].
  split; [apply getitem2_scale_image_pixel|].
  split; [unfold Qcdiv; by rewrite Z2Qc_inj_0, Qcmult_0_l|].
  split; [unfold Qcdiv; by apply Qcmult_inv_r|].
  split; [done|].
  intros p q Heq. apply Z.le_antisymm; apply Hmono; rewrite Heq;
    apply Qcle_refl.
Qed.

(** X20: the geometry comes from the depth grid alone and the colours from
    the image alone: on grids of at least 512 × 512 cells, replacing the
    image leaves [points] as it was, and replacing the depth grid leaves
    [colors] as it was. *)
Theorem generate_mesh_arrays_separate (dtm dtm' image image' : ndarray2)
    (r c : nat) :
  has_shape dtm r c = true → has_shape dtm' r c = true →
  has_shape image r c = true → has_shape image' r c = true →
  512 ≤ r → 512 ≤ c →
  ∃ points colors points' colors',
    generate_mesh_arrays dtm image = Ok (points, colors) ∧
    generate_mesh_arrays dtm image' = Ok (points, colors') ∧
    generate_mesh_arrays dtm' image = Ok (points', colors).
Proof.
  intros Hd Hd' Him Him' Hr Hc.
  destruct (generate_mesh_arrays_block dtm image)
    as (p1 & c1 & Hrun1 & Hl1 & Hm1 & _);
    [eapply has_shape_in_bounds; eauto..|].
  destruct (generate_mesh_arrays_block dtm image')
    as (p2 & c2 & Hrun2 & Hl2 & Hm2 & _);
    [eapply has_shape_in_bounds; eauto..|].
  destruct (generate_mesh_arrays_block dtm' image)
    as (p3 & c3 & Hrun3 & Hl3 & Hm3 & _);
    [eapply has_shape_in_bounds; eauto..|].
  exists p1, c1, p3, c2.
  assert (p2 = p1) as ->.
  { apply list_eq. intros k. destruct (decide (k < 512 * 512)) as [Hk|Hk].
    - destruct (build_arrays_lookup 512 _ _ _ _ k Hrun1 Hk)
        as (z & _ & Hz & _ & -> & _).
      destruct (build_arrays_lookup 512 _ _ _ _ k Hrun2 Hk)
        as (z' & _ & Hz' & _ & -> & _).
      congruence.
    - rewrite !lookup_ge_None_2; [done|rewrite Hl1|rewrite Hl2];
        unfold W, H; lia. }
  assert (c3 = c1) as ->.
  { apply list_eq. intros k. destruct (decide (k < 512 * 512)) as [Hk|Hk].
    - destruct (build_arrays_lookup 512 _ _ _ _ k Hrun1 Hk)
        as (_ & v & _ & Hv & _ & ->).
      destruct (build_arrays_lookup 512 _ _ _ _ k Hrun3 Hk)
        as (_ & v' & _ & Hv' & _ & ->).
      congruence.
    - rewrite !lookup_ge_None_2; [done|rewrite Hm1|rewrite Hm3];
        unfold W, H; lia. }
  done.
Qed.

Lemma generate_mesh_arrays_separate_witness :
  ∃ points colors points' colors',
    generate_mesh_arrays (np_full 512 512 0%Qc) (np_full 512 512 0%Qc)
      = Ok (points, colors) ∧
    generate_mesh_arrays (np_full 512 512 0%Qc) (np_full 512 512 (Qc_of_Z 1))
      = Ok (points, colors') ∧
    generate_mesh_arrays (np_full 512 512 (Qc_of_Z 9)) (np_full 512 512 0%Qc)
      = Ok (points', colors).
Proof.
  apply (generate_mesh_arrays_separate (np_full 512 512 0%Qc)
           (np_full 512 512 (Qc_of_Z 9)) (np_full 512 512 0%Qc)
           (np_full 512 512 (Qc_of_Z 1)) 512 512);
    first [lia | vm_compute; reflexivity].
Defined.

Lemma scale_image_levels_witness :
  getitem2 (scale_image [[0; 255]%Z]) 0 1 = Ok (Qc_of_Z 255 / Qc_of_Z 255)%Qc ∧
  (Qc_of_Z 3 / Qc_of_Z 255 ≤ Qc_of_Z 7 / Qc_of_Z 255)%Qc.
Proof.
  destruct (scale_image_levels [[0; 255]%Z] 1 2) as (_ & Hget & _ & _ & Hmono & _).
  split.
  - apply Hget. reflexivity.
  - apply (proj1 (Hmono 3%Z 7%Z)). lia.
Defined.
